(** * cf-benchmark: the scoring and ranking engine

    A shallow embedding of [apps/api/src/scoring.ts], of the routes of
    [apps/api/src/server.ts] that compute with scores ([/summary],
    [/compare], [/leaderboard], [/benchmark]), of the time entry of
    [apps/mobile/App.tsx] and of the benchmark of [apps/api/prisma/seed.ts].

    Numbers.  Every field of a score is a JavaScript [number | null |
    undefined].  A [number] is modelled by an exact rational ([Q]): the
    integer columns ([timeSeconds], [reps], [tiebreakSecs]) are the integral
    rationals and [loadKg] (a DOUBLE PRECISION column) a finite value.
    Rounding, infinities and NaN of IEEE doubles are outside this model
    (the module [Wide] gives the comparator, the equality and the rank a
    second time on numbers that may be NaN or infinite); numeric equality
    ([===] on two numbers) is [Qeq].  Both [null] and
    [undefined] are [None]: the code only ever looks at a field through
    [typeof x === "number"] or [x ?? null], which do not tell them apart. *)

From Stdlib Require Import List ZArith QArith Qround Lia Lqa Bool String.
From Stdlib Require Import Permutation Sorted Ascii NArith DecimalN DecimalPos.
Import ListNotations.

Local Open Scope Q_scope.

(** ** Numbers *)

Module Num.

(** [x < y] on numbers, as a test. *)
Definition ltb (x y : Q) : bool :=
  match x ?= y with
  | Lt => true
  | _ => false
  end.

(** [ToNumber] of a [number | null] operand of an arithmetic operator:
    [null] becomes [0]. *)
Definition toNumber (x : option Q) : Q :=
  match x with
  | Some v => v
  | None => 0
  end.

(** [x ?? d] *)
Definition nullish (x : option Q) (d : Q) : Q :=
  match x with
  | Some v => v
  | None => d
  end.

(** [x ?? null] *)
Definition orNull (x : option Q) : option Q :=
  match x with
  | Some v => Some v
  | None => None
  end.

(** [typeof x === "number"] *)
Definition isNumber (x : option Q) : bool :=
  match x with
  | Some _ => true
  | None => false
  end.

(** [x === y] on two [number | null] values. *)
Definition strictEq (x y : option Q) : bool :=
  match x, y with
  | Some a, Some b => Qeq_bool a b
  | None, None => true
  | _, _ => false
  end.

(** [Number.MAX_SAFE_INTEGER], 2^53 - 1. *)
Definition MAX_SAFE_INTEGER : Q := inject_Z 9007199254740991.

End Num.

(** ** Data model *)

Inductive ScoreType : Type :=
| TIME
| REPS
| LOAD
| TIME_REPS.

Record NormalizedScore : Type := mkScore {
  timeSeconds : option Q;
  reps : option Q;
  loadKg : option Q;
  tiebreakSecs : option Q
}.

(** The outcome of a call that may [throw new Error(msg)]. *)
Inductive Completion (A : Type) : Type :=
| Returned (a : A)
| Thrown (msg : string).

Arguments Returned {A} a.
Arguments Thrown {A} msg.

(** ** scoring.ts *)

Definition assertScoreMatchesType (scoreType : ScoreType) (s : NormalizedScore)
  : Completion unit :=
  let hasTime := Num.isNumber (timeSeconds s) in
  let hasReps := Num.isNumber (reps s) in
  let hasLoad := Num.isNumber (loadKg s) in
  match scoreType with
  | TIME => if negb hasTime then Thrown "TIME krever timeSeconds" else Returned tt
  | REPS => if negb hasReps then Thrown "REPS krever reps" else Returned tt
  | LOAD => if negb hasLoad then Thrown "LOAD krever loadKg" else Returned tt
  | TIME_REPS => if negb hasReps then Thrown "TIME_REPS krever reps" else Returned tt
  end.

Definition normalize (s : NormalizedScore) : NormalizedScore :=
  {| timeSeconds := Num.orNull (timeSeconds s);
     reps := Num.orNull (reps s);
     loadKg := Num.orNull (loadKg s);
     tiebreakSecs := Num.orNull (tiebreakSecs s) |}.

Definition compareScores (scoreType : ScoreType) (a b : NormalizedScore) : Q :=
  let na := normalize a in
  let nb := normalize b in
  match scoreType with
  | TIME => Num.toNumber (timeSeconds na) - Num.toNumber (timeSeconds nb)
  | REPS => Num.toNumber (reps nb) - Num.toNumber (reps na)
  | LOAD => Num.toNumber (loadKg nb) - Num.toNumber (loadKg na)
  | TIME_REPS =>
      let repsDiff := Num.toNumber (reps nb) - Num.toNumber (reps na) in
      if negb (Qeq_bool repsDiff 0) then repsDiff
      else
        let ta := Num.nullish (timeSeconds na) Num.MAX_SAFE_INTEGER in
        let tb := Num.nullish (timeSeconds nb) Num.MAX_SAFE_INTEGER in
        ta - tb
  end.

(** The [for ... of] loop of [computeBenchmarkBeatenCount], with the counter
    [beaten] as the accumulator. *)
Definition computeBenchmarkBeatenCount (scoreType : ScoreType)
  (userScore : NormalizedScore) (benchmarkScores : list NormalizedScore) : Z :=
  fold_left
    (fun beaten bs =>
       if Num.ltb (compareScores scoreType userScore bs) 0
       then (beaten + 1)%Z else beaten)
    benchmarkScores 0%Z.

Definition isSameScore (a b : NormalizedScore) : bool :=
  Num.strictEq (Num.orNull (timeSeconds a)) (Num.orNull (timeSeconds b)) &&
  Num.strictEq (Num.orNull (reps a)) (Num.orNull (reps b)) &&
  Num.strictEq (Num.orNull (loadKg a)) (Num.orNull (loadKg b)) &&
  Num.strictEq (Num.orNull (tiebreakSecs a)) (Num.orNull (tiebreakSecs b)).

(** *** Array.prototype.sort and Array.prototype.findIndex

    ECMAScript requires [sort] to be stable, and for a consistent comparator
    (which [compareScores scoreType] is, see [compareScores_antisym] and
    [compareScores_trans]) the sorted array is then determined: it is
    ordered by the comparator and elements that compare equal keep their
    order.  [Array_sort] is the stable insertion sort; [Array_sort_perm],
    [Array_sort_sorted] and [Array_sort_stable] below are the three
    properties, and [Array_sort_unique] shows that they leave no choice. *)

Section JsArray.

Context {A : Type}.

(** [x] is put in front of the first element that the comparator does not
    place before it. *)
Fixpoint sort_insert (cmp : A -> A -> Q) (x : A) (l : list A) : list A :=
  match l with
  | [] => [x]
  | y :: l' =>
      if Num.ltb 0 (cmp x y) then y :: sort_insert cmp x l'
      else x :: y :: l'
  end.

Definition Array_sort (cmp : A -> A -> Q) (l : list A) : list A :=
  fold_right (sort_insert cmp) [] l.

(** [findIndex] from position [i] on; [-1] when nothing matches. *)
Fixpoint findIndex_from (p : A -> bool) (l : list A) (i : Z) : Z :=
  match l with
  | [] => (-1)%Z
  | x :: l' => if p x then i else findIndex_from p l' (i + 1)%Z
  end.

Definition Array_findIndex (p : A -> bool) (l : list A) : Z :=
  findIndex_from p l 0%Z.

Definition Array_length (l : list A) : Z := Z.of_nat (List.length l).

(** [ordered cmp l]: the comparator places every element no later than all
    that follow it. *)
Fixpoint ordered (cmp : A -> A -> Q) (l : list A) : Prop :=
  match l with
  | [] => True
  | x :: l' => Forall (fun y => cmp x y <= 0) l' /\ ordered cmp l'
  end.

(** The comparator places [e] no later than [u]: [cmp e u <= 0]. *)
Definition notAfter (cmp : A -> A -> Q) (u e : A) : bool :=
  negb (Num.ltb 0 (cmp e u)).

End JsArray.

Definition computeRankAmongBenchmarkPlusUser (scoreType : ScoreType)
  (userScore : NormalizedScore) (benchmarkScores : list NormalizedScore) : Z :=
  let all := benchmarkScores ++ [userScore] in
  let all := Array_sort (fun x y => compareScores scoreType x y) all in
  let idx := Array_findIndex (fun s => isSameScore s userScore) all in
  if (idx =? -1)%Z then Array_length all else (idx + 1)%Z.

(** The argument is always a rank computed above, an integer. *)
Definition pointsFromRank (rank : Z) : Z :=
  if (rank <? 1)%Z then 0%Z
  else if (rank >? 40)%Z then 0%Z
  else (41 - rank)%Z.

(** ** server.ts: the aggregation of [GET /summary]

    The handler is modelled from the point where the two queries have
    returned: [workouts] is the result of [prisma.workout.findMany] for the
    requested season, competition and division, and [userResults] the
    result of [prisma.userResult.findMany] for the user.  The table
    [BenchmarkResult] is a list of rows; the query inside the loop selects
    the rows of one workout and projects their four score columns.  The
    fields [season], [competition] and [division] of the reply repeat the
    query and are left out. *)

Module Db.

Record Workout : Type := mkWorkout {
  id : string;
  scoreType : ScoreType
}.

(** The columns that [UserResult] and [BenchmarkResult] have in common. *)
Record ResultRow : Type := mkRow {
  workoutId : string;
  timeSeconds : option Q;
  reps : option Q;
  loadKg : option Q;
  tiebreakSecs : option Q
}.

(** [{ timeSeconds: r.timeSeconds, reps: r.reps, loadKg: r.loadKg,
      tiebreakSecs: r.tiebreakSecs }] *)
Definition score (r : ResultRow) : NormalizedScore :=
  mkScore (timeSeconds r) (reps r) (loadKg r) (tiebreakSecs r).

(** [prisma.benchmarkResult.findMany({ where: { workoutId }, select: ... })] *)
Definition benchmarkResult_findMany (table : list ResultRow) (wid : string)
  : list NormalizedScore :=
  map score (filter (fun r => String.eqb (workoutId r) wid) table).

End Db.

Record PerWorkout : Type := mkPerWorkout {
  workoutId : string;
  points : Z;
  beatenCount : Z;
  rank : Z
}.

Record Summary : Type := mkSummary {
  completedWorkouts : Z;
  totalPoints : Z;
  perWorkout : list PerWorkout
}.

(** The state of the loop: [totalPoints] and [perWorkout]. *)
Definition SummaryState : Type := (Z * list PerWorkout)%type.

(** One iteration of [for (const w of workouts)]. *)
Definition summaryStep (benchmarkTable userResults : list Db.ResultRow)
  (st : SummaryState) (w : Db.Workout) : SummaryState :=
  match find (fun r => String.eqb (Db.workoutId r) (Db.id w)) userResults with
  | None => st
  | Some ur =>
      let benchmark := Db.benchmarkResult_findMany benchmarkTable (Db.id w) in
      let userScore := Db.score ur in
      let beaten := computeBenchmarkBeatenCount (Db.scoreType w) userScore benchmark in
      let rank := computeRankAmongBenchmarkPlusUser (Db.scoreType w) userScore benchmark in
      let points := pointsFromRank rank in
      ((fst st + points)%Z,
       snd st ++ [mkPerWorkout (Db.id w) points beaten rank])
  end.

Definition summary (benchmarkTable : list Db.ResultRow)
  (workouts : list Db.Workout) (userResults : list Db.ResultRow) : Summary :=
  let st := fold_left (summaryStep benchmarkTable userResults) workouts (0%Z, []) in
  {| completedWorkouts := Array_length (snd st);
     totalPoints := fst st;
     perWorkout := snd st |}.

(** Does the user have a result for workout [w]? *)
Definition hasResult (userResults : list Db.ResultRow) (w : Db.Workout) : bool :=
  match find (fun r => String.eqb (Db.workoutId r) (Db.id w)) userResults with
  | Some _ => true
  | None => false
  end.

(** ** Sort keys and reference counts used in the statements *)

(** The key that [compareScores TIME_REPS] compares first: [reps], with
    [null] read as [0] by the subtraction. *)
Definition repsKey (s : NormalizedScore) : Q := Num.toNumber (reps s).

(** The key that [compareScores TIME_REPS] compares second:
    [timeSeconds ?? Number.MAX_SAFE_INTEGER]. *)
Definition timeKey (s : NormalizedScore) : Q :=
  Num.nullish (timeSeconds s) Num.MAX_SAFE_INTEGER.

(** The user is strictly better than benchmark entry [e]. *)
Definition beats (d : ScoreType) (u e : NormalizedScore) : bool :=
  Num.ltb (compareScores d u e) 0.

(** Benchmark entry [e] ties with the user. *)
Definition ties (d : ScoreType) (u e : NormalizedScore) : bool :=
  Qeq_bool (compareScores d u e) 0.

(** [count p l]: the number of elements of [l] that satisfy [p]. *)
Definition count {A : Type} (p : A -> bool) (l : list A) : Z :=
  Z.of_nat (List.length (filter p l)).

(** The field that [assertScoreMatchesType] requires for a discipline. *)
Definition requiredField (d : ScoreType) (s : NormalizedScore) : option Q :=
  match d with
  | TIME => timeSeconds s
  | REPS => reps s
  | LOAD => loadKg s
  | TIME_REPS => reps s
  end.

Definition isThrown {A : Type} (c : Completion A) : bool :=
  match c with
  | Thrown _ => true
  | Returned _ => false
  end.

(** The names that the messages of [assertScoreMatchesType] carry. *)
Definition disciplineName (d : ScoreType) : string :=
  match d with
  | TIME => "TIME"
  | REPS => "REPS"
  | LOAD => "LOAD"
  | TIME_REPS => "TIME_REPS"
  end.

Definition requiredFieldName (d : ScoreType) : string :=
  match d with
  | TIME => "timeSeconds"
  | REPS => "reps"
  | LOAD => "loadKg"
  | TIME_REPS => "reps"
  end.

(** The entry that one iteration of the [/summary] loop pushes for workout
    [w] when the user's result row is [ur]. *)
Definition perWorkoutEntry (benchmarkTable : list Db.ResultRow)
  (w : Db.Workout) (ur : Db.ResultRow) : PerWorkout :=
  let benchmark := Db.benchmarkResult_findMany benchmarkTable (Db.id w) in
  let rank := computeRankAmongBenchmarkPlusUser (Db.scoreType w) (Db.score ur) benchmark in
  {| workoutId := Db.id w;
     points := pointsFromRank rank;
     beatenCount := computeBenchmarkBeatenCount (Db.scoreType w) (Db.score ur) benchmark;
     rank := rank |}.

(** The entries of the completed workouts, in workout-iteration order. *)
Definition completedEntries (benchmarkTable userResults : list Db.ResultRow)
  (workouts : list Db.Workout) : list PerWorkout :=
  flat_map
    (fun w =>
       match find (fun r => String.eqb (Db.workoutId r) (Db.id w)) userResults with
       | None => []
       | Some ur => [perWorkoutEntry benchmarkTable w ur]
       end)
    workouts.

(** The sum of the points of a list of entries, taken front to back. *)
Definition sumPoints (l : list PerWorkout) : Z :=
  fold_left (fun acc e => (acc + points e)%Z) l 0%Z.

(** ** Sample data *)

(** [{ reps: r }] *)
Definition repsOnly (r : Q) : NormalizedScore := mkScore None (Some r) None None.

(** [{ reps: r, timeSeconds: t }] *)
Definition repsAndTime (r t : Q) : NormalizedScore :=
  mkScore (Some t) (Some r) None None.

(** [{ timeSeconds: t }] *)
Definition timeOnly (t : Q) : NormalizedScore := mkScore (Some t) None None None.

(** Three workouts in scope; the user has logged the second one only. *)
Definition sampleWorkouts : list Db.Workout :=
  [Db.mkWorkout "w1" TIME; Db.mkWorkout "w2" REPS; Db.mkWorkout "w3" TIME_REPS].

Definition sampleUserResults : list Db.ResultRow :=
  [Db.mkRow "w2" None (Some 330) None None].

Definition sampleBenchmark : list Db.ResultRow :=
  [Db.mkRow "w1" (Some 600) None None None;
   Db.mkRow "w2" None (Some 420) None None;
   Db.mkRow "w2" None (Some 330) None None;
   Db.mkRow "w2" None (Some 260) None None;
   Db.mkRow "w3" (Some 500) (Some 100) None None].

(** ** Further reference notions *)

(** Benchmark entry [e] is strictly better than the user [u]. *)
Definition betterThanUser (d : ScoreType) (u e : NormalizedScore) : bool :=
  Num.ltb (compareScores d e u) 0.

(** [{ ...s, tiebreakSecs: t }] *)
Definition withTiebreak (s : NormalizedScore) (t : option Q) : NormalizedScore :=
  mkScore (timeSeconds s) (reps s) (loadKg s) t.

(** ** server.ts: the other routes

    [workoutTable] is the table [Workout]; the [name] of a workout and the
    [createdAt] of a row are only passed through to the reply and are left
    out.  The compare route is given twice: [compareWorkout] is its handler
    from the workout lookup on, with [userResults] the rows of [UserResult]
    that belong to the resolved user (as for [GET /summary]), and
    [compareWorkoutRoute], further down, is the whole handler with the
    resolution of the user in front. *)

(** What a handler does with the request: it returns a payload, or it sends
    [reply.code(code).send({ error })]. *)
Inductive Reply (A : Type) : Type :=
| Sent (payload : A)
| Failed (code : Z) (error : string).

Arguments Sent {A} payload.
Arguments Failed {A} code error.

(** [prisma.workout.findUnique({ where: { id } })] *)
Definition workout_findUnique (workoutTable : list Db.Workout) (wid : string)
  : option Db.Workout :=
  find (fun w => String.eqb (Db.id w) wid) workoutTable.

(** [prisma.userResult.findUnique({ where: { userId_workoutId } })] on the
    rows of the user. *)
Definition userResult_findUnique (userResults : list Db.ResultRow) (wid : string)
  : option Db.ResultRow :=
  find (fun r => String.eqb (Db.workoutId r) wid) userResults.

Module Compare.

Record t : Type := mk {
  workout : Db.Workout;
  userScore : NormalizedScore;
  benchmarkTotal : Z;
  beatenCount : Z;
  rankAmongBenchmarkPlusUser : Z;
  pointsEarned : Z
}.

End Compare.

(** [GET /compare/workout/:workoutId] from the workout lookup on, for a
    request whose user has been resolved; [compareWorkoutRoute] below is the
    whole handler, with the reply 400 for a user that cannot be resolved. *)
Definition compareWorkout (workoutTable : list Db.Workout)
  (benchmarkTable userResults : list Db.ResultRow) (workoutId : string)
  : Reply Compare.t :=
  match workout_findUnique workoutTable workoutId with
  | None => Failed 404 "Workout not found"
  | Some workout =>
      match userResult_findUnique userResults workoutId with
      | None => Failed 404 "No user result for workout"
      | Some userResult =>
          let benchmark := Db.benchmarkResult_findMany benchmarkTable workoutId in
          let userScore := Db.score userResult in
          let beaten :=
            computeBenchmarkBeatenCount (Db.scoreType workout) userScore benchmark in
          let rank :=
            computeRankAmongBenchmarkPlusUser (Db.scoreType workout) userScore benchmark in
          let points := pointsFromRank rank in
          Sent {| Compare.workout := workout;
                  Compare.userScore := userScore;
                  Compare.benchmarkTotal := Array_length benchmark;
                  Compare.beatenCount := beaten;
                  Compare.rankAmongBenchmarkPlusUser := rank;
                  Compare.pointsEarned := points |}
      end
  end.

(** *** Numbers that may be NaN or infinite

    [Number(q.limit ?? 50)] converts a query string and can yield any
    number, NaN and the infinities included. *)
Inductive JsNumber : Type :=
| NaN
| NegInfinity
| Finite (q : Q)
| PosInfinity.

Definition Math_min (a b : JsNumber) : JsNumber :=
  match a, b with
  | NaN, _ | _, NaN => NaN
  | NegInfinity, _ | _, NegInfinity => NegInfinity
  | PosInfinity, x | x, PosInfinity => x
  | Finite x, Finite y => Finite (if Num.ltb y x then y else x)
  end.

Definition Math_max (a b : JsNumber) : JsNumber :=
  match a, b with
  | NaN, _ | _, NaN => NaN
  | PosInfinity, _ | _, PosInfinity => PosInfinity
  | NegInfinity, x | x, NegInfinity => x
  | Finite x, Finite y => Finite (if Num.ltb x y then y else x)
  end.

(** The integer part of a number, rounding towards zero. *)
Definition truncate (q : Q) : Z :=
  if Num.ltb q 0 then Qceiling q else Qfloor q.

(** [l.slice(0, end)] *)
Definition Array_slice0 {A : Type} (l : list A) (endIndex : JsNumber) : list A :=
  match endIndex with
  | NaN => []
  | NegInfinity => []
  | PosInfinity => l
  | Finite q =>
      let k := truncate q in
      let len := Array_length l in
      let final := if (k <? 0)%Z then Z.max (len + k) 0 else Z.min k len in
      firstn (Z.to_nat final) l
  end.

(** [l.map((x, idx) => f x idx)], with the index counted from [i]. *)
Fixpoint mapi_from {A B : Type} (f : A -> Z -> B) (l : list A) (i : Z) : list B :=
  match l with
  | [] => []
  | x :: l' => f x i :: mapi_from f l' (i + 1)%Z
  end.

Definition Array_mapi {A B : Type} (f : A -> Z -> B) (l : list A) : list B :=
  mapi_from f l 0%Z.

Module Leaderboard.

(** A row of [UserResult] together with its [user]. *)
Record Row (U : Type) : Type := mkRow {
  user : U;
  result : Db.ResultRow
}.

Arguments mkRow {U} user result.
Arguments user {U} r.
Arguments result {U} r.

Record Entry (U : Type) : Type := mkEntry {
  rank : Z;
  entryUser : U;
  score : NormalizedScore
}.

Arguments mkEntry {U} rank entryUser score.
Arguments rank {U} e.
Arguments entryUser {U} e.
Arguments score {U} e.

Record t (U : Type) : Type := mk {
  workout : Db.Workout;
  leaderboard : list (Entry U)
}.

Arguments mk {U} workout leaderboard.
Arguments workout {U} t.
Arguments leaderboard {U} t.

End Leaderboard.

(** [Math.max(1, Math.min(200, Number(q.limit ?? 50)))]; [qlimit] is the
    number that the query string converts to, when the query has one. *)
Definition leaderboardLimit (qlimit : option JsNumber) : JsNumber :=
  Math_max (Finite 1)
    (Math_min (Finite 200)
       (match qlimit with
        | Some n => n
        | None => Finite 50
        end)).

(** The comparator that the leaderboard sorts the rows with. *)
Definition compareRows {U : Type} (scoreType : ScoreType)
  (a b : Leaderboard.Row U) : Q :=
  compareScores scoreType (Db.score (Leaderboard.result a))
    (Db.score (Leaderboard.result b)).

(** [GET /leaderboard/workout/:workoutId] *)
Definition leaderboardWorkout {U : Type} (workoutTable : list Db.Workout)
  (userResultTable : list (Leaderboard.Row U)) (workoutId : string)
  (qlimit : option JsNumber) : Reply (Leaderboard.t U) :=
  let limit := leaderboardLimit qlimit in
  match workout_findUnique workoutTable workoutId with
  | None => Failed 404 "Workout not found"
  | Some workout =>
      let results :=
        filter (fun r => String.eqb (Db.workoutId (Leaderboard.result r)) workoutId)
          userResultTable in
      let results := Array_sort (compareRows (Db.scoreType workout)) results in
      Sent {| Leaderboard.workout := workout;
              Leaderboard.leaderboard :=
                Array_mapi
                  (fun r idx =>
                     Leaderboard.mkEntry (idx + 1)%Z (Leaderboard.user r)
                       (Db.score (Leaderboard.result r)))
                  (Array_slice0 results limit) |}
  end.

Module Benchmark.

(** A row of [BenchmarkResult] together with its [athlete]. *)
Record Row : Type := mkRow {
  athleteRank : Z;
  athleteName : string;
  result : Db.ResultRow
}.

Record Entry : Type := mkEntry {
  rank : Z;
  name : string;
  score : NormalizedScore
}.

End Benchmark.

(** [(a, b) => a.athlete.rank - b.athlete.rank] *)
Definition compareAthleteRank (a b : Benchmark.Row) : Q :=
  inject_Z (Benchmark.athleteRank a - Benchmark.athleteRank b).

(** [GET /benchmark/workout/:workoutId] *)
Definition benchmarkWorkout (workoutTable : list Db.Workout)
  (benchmarkTable : list Benchmark.Row) (workoutId : string)
  : Reply (Db.Workout * list Benchmark.Entry) :=
  match workout_findUnique workoutTable workoutId with
  | None => Failed 404 "Workout not found"
  | Some workout =>
      let rows :=
        filter (fun r => String.eqb (Db.workoutId (Benchmark.result r)) workoutId)
          benchmarkTable in
      let rows := Array_sort compareAthleteRank rows in
      Sent (workout,
            map (fun r =>
                   Benchmark.mkEntry (Benchmark.athleteRank r) (Benchmark.athleteName r)
                     (normalize (Db.score (Benchmark.result r))))
              rows)
  end.

(** The whole numbers [i], [i+1], ..., [i+n-1]. *)
Fixpoint Zseq (i : Z) (n : nat) : list Z :=
  match n with
  | O => []
  | S n' => i :: Zseq (i + 1)%Z n'
  end.

(** ** App.tsx: entering and showing a time

    A JavaScript string is its sequence of UTF-16 code units.  The numbers
    that [parseTimeToSeconds] returns and that [formatTime] prints are
    non-negative integers and are kept in [N]. *)

Module JsString.

Definition t : Type := list N.

(** A string literal of ASCII characters. *)
Definition ofString (s : string) : t := map N_of_ascii (list_ascii_of_string s).

(** The code units that [String.prototype.trim] strips: WhiteSpace (TAB, VT,
    FF, ZWNBSP and the space separators) and LineTerminator. *)
Definition isWhiteSpace (c : N) : bool :=
  existsb (N.eqb c)
    [9; 10; 11; 12; 13; 32; 160; 5760; 8192; 8193; 8194; 8195; 8196; 8197;
     8198; 8199; 8200; 8201; 8202; 8232; 8233; 8239; 8287; 12288; 65279]%N.

Fixpoint trimStart (s : t) : t :=
  match s with
  | [] => []
  | c :: s' => if isWhiteSpace c then trimStart s' else s
  end.

Definition trimEnd (s : t) : t := rev (trimStart (rev s)).

Definition trim (s : t) : t := trimEnd (trimStart s).

(** [\d] *)
Definition isDigit (c : N) : bool := ((48 <=? c) && (c <=? 57))%N.

(** [/^\d+$/.test(s)] *)
Definition allDigits (s : t) : bool :=
  match s with
  | [] => false
  | _ => forallb isDigit s
  end.

(** [s.split(sep)] for a separator of one code unit. *)
Fixpoint split (sep : N) (s : t) : list t :=
  match s with
  | [] => [[]]
  | c :: s' =>
      if (c =? sep)%N then [] :: split sep s'
      else
        match split sep s' with
        | [] => [[c]]
        | p :: ps => (c :: p) :: ps
        end
  end.

(** [Number(s)] for a string of decimal digits: its decimal value.  The
    value is exact; the code has the nearest double, which is the same
    number up to [Number.MAX_SAFE_INTEGER].  The properties of
    [parseTimeToSeconds] below are stated within that range. *)
Definition numberOfDigits (s : t) : N :=
  fold_left (fun acc c => (10 * acc + (c - 48))%N) s 0%N.

Fixpoint ofUint (d : Decimal.uint) : t :=
  match d with
  | Decimal.Nil => []
  | Decimal.D0 l => 48%N :: ofUint l
  | Decimal.D1 l => 49%N :: ofUint l
  | Decimal.D2 l => 50%N :: ofUint l
  | Decimal.D3 l => 51%N :: ofUint l
  | Decimal.D4 l => 52%N :: ofUint l
  | Decimal.D5 l => 53%N :: ofUint l
  | Decimal.D6 l => 54%N :: ofUint l
  | Decimal.D7 l => 55%N :: ofUint l
  | Decimal.D8 l => 56%N :: ofUint l
  | Decimal.D9 l => 57%N :: ofUint l
  end.

(** [String(n)] and [`${n}`] for a non-negative integer below 10^21: its
    decimal digits.  (From 10^21 on JavaScript prints an exponent.) *)
Definition ofNumber (n : N) : t := ofUint (N.to_uint n).

(** [s.padStart(len, c)] for a pad string of one code unit. *)
Definition padStart (len : nat) (c : N) (s : t) : t :=
  repeat c (len - List.length s) ++ s.

End JsString.

(** The sums are exact; they are what the code computes as long as the
    result is a safe integer. *)
Definition parseTimeToSeconds (input : JsString.t) : option N :=
  let s := JsString.trim input in
  match s with
  | [] => None
  | _ =>
      if JsString.allDigits s then Some (JsString.numberOfDigits s)
      else
        let parts := map JsString.trim (JsString.split 58 s) in
        if existsb (fun p => negb (JsString.allDigits p)) parts then None
        else if (List.length parts <? 2)%nat || (3 <? List.length parts)%nat
        then None
        else
          (* a string of digits never converts to NaN *)
          let nums := map JsString.numberOfDigits parts in
          match nums with
          | [mm; ss] => Some (mm * 60 + ss)%N
          | [hh; mm; ss] => Some (hh * 3600 + mm * 60 + ss)%N
          | _ => None
          end
  end.

(** The quotients and remainders are exact and the fields are printed as
    plain digits; this is what the code computes for [seconds] up to
    [Number.MAX_SAFE_INTEGER], and the properties of [formatTime] below are
    stated within that range. *)
Definition formatTime (seconds : Q) : JsString.t :=
  let s := Z.to_N (Z.max 0 (Qfloor seconds)) in
  let hh := (s / 3600)%N in
  let mm := ((s mod 3600) / 60)%N in
  let ss := (s mod 60)%N in
  if (0 <? hh)%N
  then JsString.ofNumber hh ++ [58%N] ++
       JsString.padStart 2 48 (JsString.ofNumber mm) ++ [58%N] ++
       JsString.padStart 2 48 (JsString.ofNumber ss)
  else JsString.ofNumber mm ++ [58%N] ++
       JsString.padStart 2 48 (JsString.ofNumber ss).

(** The value of colon-separated groups of digits, read in base 60. *)
Definition base60 (parts : list JsString.t) : N :=
  fold_left (fun acc p => (60 * acc + JsString.numberOfDigits p)%N) parts 0%N.

(** The two decimal digits of a number below 100. *)
Definition twoDigits (n : N) : JsString.t := [(48 + n / 10)%N; (48 + n mod 10)%N].

(** The whole seconds that [formatTime] prints: [Math.max(0, Math.floor(seconds))]. *)
Definition wholeSeconds (seconds : Q) : N := Z.to_N (Z.max 0 (Qfloor seconds)).

(** ** prisma/seed.ts: the seeded benchmark

    The seed script creates 40 benchmark athletes with ranks 1 to 40 and
    gives each a time for workout [seed-w1] and a number of reps for
    workout [seed-w2].  The quotients it rounds are never closer than 1/78
    to a half, so rounding them exactly gives what the script stores. *)

(** [Math.round(x)]: the nearest integer, halves rounded up. *)
Definition Math_round (x : Q) : Z := Qfloor (x + (1 # 2)).

(** [600 + Math.round(((rank - 1) / 39) * 400)] *)
Definition seedTimeSeconds (rank : Z) : Z :=
  (600 + Math_round ((inject_Z (rank - 1) / 39) * 400))%Z.

(** [420 - Math.round(((rank - 1) / 39) * 160)] *)
Definition seedReps (rank : Z) : Z :=
  (420 - Math_round ((inject_Z (rank - 1) / 39) * 160))%Z.

(** The ranks of the loop [for (let i = 1; i <= 40; i++)]. *)
Definition seedRanks : list Z := Zseq 1 40.

(** The scores of the rows created for [seed-w1] and for [seed-w2], in the
    order of the athletes' ranks. *)
Definition seedTimeBenchmark : list NormalizedScore :=
  map (fun rank => mkScore (Some (inject_Z (seedTimeSeconds rank))) None None None)
    seedRanks.

Definition seedRepsBenchmark : list NormalizedScore :=
  map (fun rank => mkScore None (Some (inject_Z (seedReps rank))) None None)
    seedRanks.

(** Is every element smaller than the next one? *)
Fixpoint increasing (l : list Z) : bool :=
  match l with
  | [] => true
  | x :: l' =>
      match l' with
      | [] => true
      | y :: _ => (x <? y)%Z && increasing l'
      end
  end.

(** ** server.ts: resolving the user

    [normalizeIdentifier] applies two built-in Unicode functions,
    [normalize("NFC")] and [toLocaleLowerCase("nb-NO")]; they are taken as
    parameters.  User ids and identifiers are JavaScript strings. *)

(** [a === b] on strings. *)
Definition sameString (a b : JsString.t) : bool :=
  if list_eq_dec N.eq_dec a b then true else false.

Module Users.

(** A row of [User]. *)
Record User : Type := mkUser {
  id : JsString.t;
  email : JsString.t
}.

(** A row of [UserResult] with its [userId] column. *)
Record ResultRow : Type := mkResult {
  userId : JsString.t;
  row : Db.ResultRow
}.

End Users.

(** The rows of [UserResult] that belong to one user. *)
Definition userResultsOf (userResultTable : list Users.ResultRow)
  (userId : JsString.t) : list Db.ResultRow :=
  map Users.row
    (filter (fun r => sameString (Users.userId r) userId) userResultTable).

(** [prisma.userResult.findUnique({ where: { userId_workoutId: { userId,
    workoutId } } })] on the whole table. *)
Definition userResult_findByKey (userResultTable : list Users.ResultRow)
  (userId : JsString.t) (workoutId : string) : option Db.ResultRow :=
  option_map Users.row
    (find (fun r => sameString (Users.userId r) userId &&
                    String.eqb (Db.workoutId (Users.row r)) workoutId)
       userResultTable).

Section Identifier.

(** [s.normalize("NFC")] and [s.toLocaleLowerCase("nb-NO")] *)
Variable String_normalize_NFC : JsString.t -> JsString.t.
Variable String_toLocaleLowerCase : JsString.t -> JsString.t.

Definition normalizeIdentifier (raw : JsString.t) : JsString.t :=
  String_toLocaleLowerCase (String_normalize_NFC (JsString.trim raw)).

(** [lookup.userId] and [lookup.email] are the two query parameters, each a
    string or absent. *)
Definition resolveUserIdOrThrow (users : list Users.User)
  (userId email : option JsString.t) : Completion JsString.t :=
  match userId with
  | Some (c :: r) => Returned (c :: r)
  | _ =>
      let identifier :=
        normalizeIdentifier (match email with Some e => e | None => [] end) in
      match identifier with
      | [] => Thrown "Missing userId or email"
      | _ =>
          match find (fun u => sameString (Users.email u) identifier) users with
          | None => Thrown "User not found for email/identifier"
          | Some user => Returned (Users.id user)
          end
      end
  end.

(** [GET /compare/workout/:workoutId], the whole handler. *)
Definition compareWorkoutRoute (users : list Users.User)
  (workoutTable : list Db.Workout) (benchmarkTable : list Db.ResultRow)
  (userResultTable : list Users.ResultRow) (workoutId : string)
  (q_userId q_email : option JsString.t) : Reply Compare.t :=
  match resolveUserIdOrThrow users q_userId q_email with
  | Thrown msg => Failed 400 msg
  | Returned userId =>
      match workout_findUnique workoutTable workoutId with
      | None => Failed 404 "Workout not found"
      | Some workout =>
          match userResult_findByKey userResultTable userId workoutId with
          | None => Failed 404 "No user result for workout"
          | Some userResult =>
              let benchmark := Db.benchmarkResult_findMany benchmarkTable workoutId in
              let userScore := Db.score userResult in
              let beaten :=
                computeBenchmarkBeatenCount (Db.scoreType workout) userScore benchmark in
              let rank :=
                computeRankAmongBenchmarkPlusUser (Db.scoreType workout) userScore
                  benchmark in
              let points := pointsFromRank rank in
              Sent {| Compare.workout := workout;
                      Compare.userScore := userScore;
                      Compare.benchmarkTotal := Array_length benchmark;
                      Compare.beatenCount := beaten;
                      Compare.rankAmongBenchmarkPlusUser := rank;
                      Compare.pointsEarned := points |}
          end
      end
  end.

End Identifier.

(** ** scoring.ts on numbers that may be NaN or infinite

    A DOUBLE PRECISION column can hold NaN and the infinities, and
    [typeof NaN] is ["number"].  [Wide] repeats the comparator, the equality
    and the rank on scores whose fields are such numbers.  With NaN about,
    [compareScores] is no longer a consistent comparator, and ECMAScript
    then leaves the order that [sort] produces to the implementation: all
    it fixes is that the array holds the same elements afterwards.  The
    rank therefore takes the sort as a parameter. *)

Module Wide.

Record NormalizedScore : Type := mkScore {
  timeSeconds : option JsNumber;
  reps : option JsNumber;
  loadKg : option JsNumber;
  tiebreakSecs : option JsNumber
}.

(** [a - b] *)
Definition sub (a b : JsNumber) : JsNumber :=
  match a, b with
  | NaN, _ | _, NaN => NaN
  | PosInfinity, PosInfinity | NegInfinity, NegInfinity => NaN
  | PosInfinity, _ | _, NegInfinity => PosInfinity
  | NegInfinity, _ | _, PosInfinity => NegInfinity
  | Finite x, Finite y => Finite (x - y)
  end.

(** [a === b] on two numbers: NaN equals nothing. *)
Definition numEq (a b : JsNumber) : bool :=
  match a, b with
  | Finite x, Finite y => Qeq_bool x y
  | PosInfinity, PosInfinity | NegInfinity, NegInfinity => true
  | _, _ => false
  end.

Definition toNumber (x : option JsNumber) : JsNumber :=
  match x with
  | Some v => v
  | None => Finite 0
  end.

Definition nullish (x : option JsNumber) (d : JsNumber) : JsNumber :=
  match x with
  | Some v => v
  | None => d
  end.

Definition orNull (x : option JsNumber) : option JsNumber :=
  match x with
  | Some v => Some v
  | None => None
  end.

Definition strictEq (x y : option JsNumber) : bool :=
  match x, y with
  | Some a, Some b => numEq a b
  | None, None => true
  | _, _ => false
  end.

Definition normalize (s : NormalizedScore) : NormalizedScore :=
  {| timeSeconds := orNull (timeSeconds s);
     reps := orNull (reps s);
     loadKg := orNull (loadKg s);
     tiebreakSecs := orNull (tiebreakSecs s) |}.

Definition compareScores (scoreType : ScoreType) (a b : NormalizedScore) : JsNumber :=
  let na := normalize a in
  let nb := normalize b in
  match scoreType with
  | TIME => sub (toNumber (timeSeconds na)) (toNumber (timeSeconds nb))
  | REPS => sub (toNumber (reps nb)) (toNumber (reps na))
  | LOAD => sub (toNumber (loadKg nb)) (toNumber (loadKg na))
  | TIME_REPS =>
      let repsDiff := sub (toNumber (reps nb)) (toNumber (reps na)) in
      if negb (numEq repsDiff (Finite 0)) then repsDiff
      else
        let ta := nullish (timeSeconds na) (Finite Num.MAX_SAFE_INTEGER) in
        let tb := nullish (timeSeconds nb) (Finite Num.MAX_SAFE_INTEGER) in
        sub ta tb
  end.

Definition isSameScore (a b : NormalizedScore) : bool :=
  strictEq (orNull (timeSeconds a)) (orNull (timeSeconds b)) &&
  strictEq (orNull (reps a)) (orNull (reps b)) &&
  strictEq (orNull (loadKg a)) (orNull (loadKg b)) &&
  strictEq (orNull (tiebreakSecs a)) (orNull (tiebreakSecs b)).

(** [sort] is what [Array.prototype.sort] does in the engine at hand. *)
Definition computeRankAmongBenchmarkPlusUser
  (sort : (NormalizedScore -> NormalizedScore -> JsNumber) ->
          list NormalizedScore -> list NormalizedScore)
  (scoreType : ScoreType) (userScore : NormalizedScore)
  (benchmarkScores : list NormalizedScore) : Z :=
  let all := benchmarkScores ++ [userScore] in
  let all := sort (fun x y => compareScores scoreType x y) all in
  let idx := Array_findIndex (fun s => isSameScore s userScore) all in
  if (idx =? -1)%Z then Array_length all else (idx + 1)%Z.

(** One conforming [sort]: the stable insertion sort.  A comparator result
    of NaN counts as +0. *)
Definition isPositive (v : JsNumber) : bool :=
  match v with
  | PosInfinity => true
  | Finite q => Num.ltb 0 q
  | _ => false
  end.

Fixpoint sort_insert (cmp : NormalizedScore -> NormalizedScore -> JsNumber)
  (x : NormalizedScore) (l : list NormalizedScore) : list NormalizedScore :=
  match l with
  | [] => [x]
  | y :: l' =>
      if isPositive (cmp x y) then y :: sort_insert cmp x l'
      else x :: y :: l'
  end.

Definition Array_sort (cmp : NormalizedScore -> NormalizedScore -> JsNumber)
  (l : list NormalizedScore) : list NormalizedScore :=
  fold_right (sort_insert cmp) [] l.

(** Does some field of the score hold NaN? *)
Definition isNaN (x : option JsNumber) : bool :=
  match x with
  | Some NaN => true
  | _ => false
  end.

Definition hasNaN (s : NormalizedScore) : bool :=
  isNaN (timeSeconds s) || isNaN (reps s) || isNaN (loadKg s) ||
  isNaN (tiebreakSecs s).

End Wide.

(** A score of finite numbers as a [Wide] score. *)
Definition widen (s : NormalizedScore) : Wide.NormalizedScore :=
  Wide.mkScore (option_map Finite (timeSeconds s)) (option_map Finite (reps s))
    (option_map Finite (loadKg s)) (option_map Finite (tiebreakSecs s)).

(** * Properties *)

(** ** Numbers *)

Lemma ltb_lt (x y : Q) : Num.ltb x y = true <-> x < y.
Proof.
  unfold Num.ltb. rewrite Qlt_alt.
  destruct (x ?= y); split; intro H; try reflexivity; discriminate H.
Qed.

Lemma ltb_ge (x y : Q) : Num.ltb x y = false <-> y <= x.
Proof.
  split; intro H.
  - destruct (Qlt_le_dec x y) as [L | L]; [| exact L].
    apply ltb_lt in L. congruence.
  - destruct (Num.ltb x y) eqn:E; [| reflexivity].
    apply ltb_lt in E. lra.
Qed.

Lemma strictEq_refl (x : option Q) : Num.strictEq x x = true.
Proof.
  destruct x as [v |]; simpl; [| reflexivity].
  apply Qeq_bool_iff. reflexivity.
Qed.

Lemma orNull_id (x : option Q) : Num.orNull x = x.
Proof. destruct x; reflexivity. Qed.

Lemma isSameScore_refl (s : NormalizedScore) : isSameScore s s = true.
Proof.
  unfold isSameScore. rewrite !strictEq_refl. reflexivity.
Qed.

(** ** The comparator is consistent *)

Lemma normalize_id (s : NormalizedScore) : normalize s = s.
Proof.
  destruct s. unfold normalize. simpl. rewrite !orNull_id. reflexivity.
Qed.

Lemma compareScores_TIME_REPS (a b : NormalizedScore) :
  compareScores TIME_REPS a b =
  if negb (Qeq_bool (repsKey b - repsKey a) 0) then repsKey b - repsKey a
  else timeKey a - timeKey b.
Proof.
  unfold compareScores. rewrite !normalize_id. reflexivity.
Qed.

Lemma compareScores_TIME_REPS_tie (a b : NormalizedScore) :
  repsKey b == repsKey a ->
  compareScores TIME_REPS a b = timeKey a - timeKey b.
Proof.
  intro H. rewrite compareScores_TIME_REPS.
  assert (E : Qeq_bool (repsKey b - repsKey a) 0 = true)
    by (apply Qeq_bool_iff; lra).
  rewrite E. reflexivity.
Qed.

Lemma compareScores_TIME_REPS_diff (a b : NormalizedScore) :
  ~ repsKey b == repsKey a ->
  compareScores TIME_REPS a b = repsKey b - repsKey a.
Proof.
  intro H. rewrite compareScores_TIME_REPS.
  destruct (Qeq_bool (repsKey b - repsKey a) 0) eqn:E; [| reflexivity].
  apply Qeq_bool_iff in E. exfalso. apply H. lra.
Qed.

(** Rewrite [compareScores TIME_REPS x y] by the case of its two reps. *)
Ltac time_reps_cases x y :=
  let H := fresh "R" in
  destruct (Q_dec (repsKey y) (repsKey x)) as [[H | H] | H];
  [ rewrite (compareScores_TIME_REPS_diff x y) in * by lra
  | rewrite (compareScores_TIME_REPS_diff x y) in * by lra
  | rewrite (compareScores_TIME_REPS_tie x y) in * by lra ].

Lemma compareScores_antisym (d : ScoreType) (a b : NormalizedScore) :
  compareScores d a b == - compareScores d b a.
Proof.
  destruct d.
  1-3: unfold compareScores; rewrite !normalize_id; lra.
  time_reps_cases a b; time_reps_cases b a; lra.
Qed.

Lemma compareScores_trans (d : ScoreType) (a b c : NormalizedScore) :
  compareScores d a b <= 0 -> compareScores d b c <= 0 -> compareScores d a c <= 0.
Proof.
  destruct d.
  1-3: unfold compareScores; rewrite !normalize_id; lra.
  time_reps_cases a b; time_reps_cases b c; time_reps_cases a c; lra.
Qed.

(** ** Array.prototype.sort with a consistent comparator *)

Section StableSort.

Context {A : Type} (cmp : A -> A -> Q).

Hypothesis cmp_antisym : forall x y, cmp x y == - cmp y x.
Hypothesis cmp_trans : forall x y z, cmp x y <= 0 -> cmp y z <= 0 -> cmp x z <= 0.

Lemma sort_insert_length (x : A) (l : list A) :
  List.length (sort_insert cmp x l) = S (List.length l).
Proof.
  induction l as [| y l IH]; simpl; [reflexivity |].
  destruct (Num.ltb 0 (cmp x y)); simpl; [rewrite IH |]; reflexivity.
Qed.

Lemma Array_sort_length (l : list A) :
  List.length (Array_sort cmp l) = List.length l.
Proof.
  induction l as [| x l IH]; simpl; [reflexivity |].
  rewrite sort_insert_length. fold (Array_sort cmp l). rewrite IH. reflexivity.
Qed.

Lemma sort_insert_perm (x : A) (l : list A) :
  Permutation (x :: l) (sort_insert cmp x l).
Proof.
  induction l as [| y l IH]; simpl; [apply Permutation_refl |].
  destruct (Num.ltb 0 (cmp x y)); [| apply Permutation_refl].
  eapply perm_trans; [apply perm_swap |]. apply perm_skip. exact IH.
Qed.

Lemma Array_sort_perm (l : list A) : Permutation l (Array_sort cmp l).
Proof.
  induction l as [| x l IH]; simpl; [apply perm_nil |].
  eapply perm_trans; [apply perm_skip; exact IH |]. apply sort_insert_perm.
Qed.

Lemma Array_sort_In (l : list A) (e : A) : In e (Array_sort cmp l) <-> In e l.
Proof.
  split; apply Permutation_in;
    [apply Permutation_sym |]; apply Array_sort_perm.
Qed.

Lemma sort_insert_ordered (x : A) (l : list A) :
  ordered cmp l -> ordered cmp (sort_insert cmp x l).
Proof.
  induction l as [| y l IH]; simpl; intro H.
  - split; [constructor | exact I].
  - destruct H as [Hy Hl].
    destruct (Num.ltb 0 (cmp x y)) eqn:E; simpl.
    + split; [| apply IH; exact Hl].
      apply ltb_lt in E.
      assert (Hyx : cmp y x <= 0) by (rewrite (cmp_antisym y x); lra).
      apply Forall_forall. intros e He.
      apply (Permutation_in _ (Permutation_sym (sort_insert_perm x l))) in He.
      destruct He as [<- | He]; [exact Hyx |].
      rewrite Forall_forall in Hy. apply Hy. exact He.
    + apply ltb_ge in E.
      split; [| split; assumption].
      constructor; [exact E |].
      apply Forall_forall. intros e He.
      rewrite Forall_forall in Hy. apply (cmp_trans x y e E). apply Hy. exact He.
Qed.

Lemma Array_sort_sorted (l : list A) : ordered cmp (Array_sort cmp l).
Proof.
  induction l as [| x l IH]; simpl; [exact I |].
  apply sort_insert_ordered. exact IH.
Qed.

(** Stability: the elements that tie with a given [x] keep their order. *)
Lemma sort_insert_filter_out (p : A -> bool) (x : A) (l : list A) :
  p x = false -> filter p (sort_insert cmp x l) = filter p l.
Proof.
  intro Hx. induction l as [| y l IH]; simpl.
  - rewrite Hx. reflexivity.
  - destruct (Num.ltb 0 (cmp x y)); simpl.
    + rewrite IH. reflexivity.
    + rewrite Hx. reflexivity.
Qed.

Lemma sort_insert_filter_tie (x z : A) (l : list A) :
  cmp x z == 0 ->
  filter (fun y => Qeq_bool (cmp x y) 0) (sort_insert cmp z l) =
  z :: filter (fun y => Qeq_bool (cmp x y) 0) l.
Proof.
  intro Hz.
  assert (Ez : Qeq_bool (cmp x z) 0 = true) by (apply Qeq_bool_iff; exact Hz).
  induction l as [| y l IH]; simpl.
  - rewrite Ez. reflexivity.
  - destruct (Num.ltb 0 (cmp z y)) eqn:E; simpl.
    + rewrite IH.
      destruct (Qeq_bool (cmp x y) 0) eqn:Ey; [| reflexivity].
      exfalso. apply ltb_lt in E. apply Qeq_bool_iff in Ey.
      assert (cmp z x <= 0) by (rewrite (cmp_antisym z x); lra).
      assert (cmp x y <= 0) by lra.
      pose proof (cmp_trans z x y). lra.
    + rewrite Ez. reflexivity.
Qed.

Lemma Array_sort_stable (x : A) (l : list A) :
  filter (fun y => Qeq_bool (cmp x y) 0) (Array_sort cmp l) =
  filter (fun y => Qeq_bool (cmp x y) 0) l.
Proof.
  induction l as [| z l IH]; simpl; [reflexivity |].
  fold (Array_sort cmp l).
  destruct (Qeq_bool (cmp x z) 0) eqn:Ez.
  - rewrite sort_insert_filter_tie by (apply Qeq_bool_iff; exact Ez).
    rewrite IH. reflexivity.
  - rewrite sort_insert_filter_out by exact Ez. exact IH.
Qed.

(** Two ordered arrangements of the same elements that agree on the order
    of tied elements are the same list: the result of a stable sort does not
    depend on the algorithm. *)
Lemma ordered_stable_unique (l1 l2 : list A) :
  Permutation l1 l2 ->
  ordered cmp l1 ->
  ordered cmp l2 ->
  (forall x, filter (fun y => Qeq_bool (cmp x y) 0) l1 =
             filter (fun y => Qeq_bool (cmp x y) 0) l2) ->
  l1 = l2.
Proof.
  assert (refl0 : forall x, cmp x x == 0)
    by (intro x; pose proof (cmp_antisym x x); lra).
  assert (head_le : forall a l c,
             ordered cmp (a :: l) -> In c (a :: l) -> cmp a c <= 0).
  { intros a l c [Ha _] [<- | Hc]; [rewrite refl0; lra |].
    rewrite Forall_forall in Ha. apply Ha. exact Hc. }
  revert l2. induction l1 as [| a l1 IH]; intros l2 HP O1 O2 HF.
  - apply Permutation_nil in HP. symmetry. exact HP.
  - destruct l2 as [| c l2];
      [apply Permutation_sym, Permutation_nil in HP; discriminate HP |].
    assert (Hac : cmp a c <= 0).
    { apply (head_le a l1 c O1).
      apply (Permutation_in _ (Permutation_sym HP)). left. reflexivity. }
    assert (Hca : cmp c a <= 0).
    { apply (head_le c l2 a O2). apply (Permutation_in _ HP). left. reflexivity. }
    assert (Tac : Qeq_bool (cmp a c) 0 = true).
    { apply Qeq_bool_iff. rewrite (cmp_antisym c a) in Hca. lra. }
    assert (Taa : Qeq_bool (cmp a a) 0 = true) by (apply Qeq_bool_iff, refl0).
    pose proof (HF a) as Ha. simpl in Ha. rewrite Taa, Tac in Ha.
    injection Ha as Eac _. subst c. f_equal.
    apply IH.
    + exact (Permutation_cons_inv HP).
    + exact (proj2 O1).
    + exact (proj2 O2).
    + intro x. pose proof (HF x) as Hx. simpl in Hx.
      destruct (Qeq_bool (cmp x a) 0); [injection Hx as Hx |]; exact Hx.
Qed.

Lemma Array_sort_unique (l l' : list A) :
  Permutation l l' ->
  ordered cmp l' ->
  (forall x, filter (fun y => Qeq_bool (cmp x y) 0) l' =
             filter (fun y => Qeq_bool (cmp x y) 0) l) ->
  l' = Array_sort cmp l.
Proof.
  intros HP HO HS. apply ordered_stable_unique.
  - eapply perm_trans; [apply Permutation_sym; exact HP | apply Array_sort_perm].
  - exact HO.
  - apply Array_sort_sorted.
  - intro x. rewrite HS, Array_sort_stable. reflexivity.
Qed.

(** *** Where the element appended last ends up *)

Lemma sort_insert_before (x u : A) (L R : list A) :
  cmp x u <= 0 ->
  sort_insert cmp x (L ++ u :: R) = sort_insert cmp x L ++ u :: R.
Proof.
  intro Hx. induction L as [| y L IH]; simpl.
  - apply ltb_ge in Hx. rewrite Hx. reflexivity.
  - destruct (Num.ltb 0 (cmp x y)); simpl; [rewrite IH |]; reflexivity.
Qed.

Lemma sort_insert_after (x u : A) (L R : list A) :
  0 < cmp x u ->
  Forall (fun e => cmp e u <= 0) L ->
  sort_insert cmp x (L ++ u :: R) = L ++ u :: sort_insert cmp x R.
Proof.
  intros Hx HL. induction L as [| y L IH]; simpl.
  - apply ltb_lt in Hx. rewrite Hx. reflexivity.
  - inversion HL as [| ? ? Hy HL']; subst.
    destruct (Num.ltb 0 (cmp x y)) eqn:E.
    + rewrite (IH HL'). reflexivity.
    + exfalso. apply ltb_ge in E. pose proof (cmp_trans x y u E Hy). lra.
Qed.

Lemma Array_sort_snoc (u : A) (b : list A) :
  Array_sort cmp (b ++ [u]) =
  Array_sort cmp (filter (notAfter cmp u) b) ++
  u :: Array_sort cmp (filter (fun e => negb (notAfter cmp u e)) b).
Proof.
  unfold Array_sort. rewrite fold_right_app. simpl.
  induction b as [| x b IH]; simpl; [reflexivity |].
  rewrite IH.
  destruct (notAfter cmp u x) eqn:E; simpl; unfold notAfter in E.
  - apply negb_true_iff in E.
    apply sort_insert_before. apply ltb_ge. exact E.
  - apply negb_false_iff in E.
    apply sort_insert_after; [apply ltb_lt; exact E |].
    apply Forall_forall. intros e He.
    apply (Array_sort_In (filter (notAfter cmp u) b) e) in He.
    apply filter_In in He. destruct He as [_ He].
    unfold notAfter in He. apply negb_true_iff in He.
    apply ltb_ge. exact He.
Qed.

End StableSort.

(** ** Array.prototype.findIndex and counting *)

Lemma findIndex_from_bounds {A : Type} (p : A -> bool) (l : list A) (i : Z) :
  findIndex_from p l i = (-1)%Z \/
  (i <= findIndex_from p l i < i + Z.of_nat (List.length l))%Z.
Proof.
  revert i. induction l as [| x l IH]; intro i; simpl findIndex_from.
  - left. reflexivity.
  - destruct (p x).
    + right. simpl List.length. lia.
    + destruct (IH (i + 1)%Z) as [H | H]; [left; exact H | right].
      simpl List.length. lia.
Qed.

Lemma findIndex_from_app {A : Type} (p : A -> bool) (L R : list A) (x : A) (i : Z) :
  Forall (fun e => p e = false) L ->
  p x = true ->
  findIndex_from p (L ++ x :: R) i = (i + Z.of_nat (List.length L))%Z.
Proof.
  intros HL Hx. revert i.
  induction HL as [| y L Hy HL IH]; intro i; simpl findIndex_from.
  - rewrite Hx. simpl. lia.
  - rewrite Hy. rewrite IH. simpl List.length. lia.
Qed.

Lemma count_cons {A : Type} (p : A -> bool) (x : A) (l : list A) :
  count p (x :: l) = ((if p x then 1 else 0) + count p l)%Z.
Proof.
  unfold count. simpl. destruct (p x); simpl List.length; lia.
Qed.

Lemma count_nonneg {A : Type} (p : A -> bool) (l : list A) : (0 <= count p l)%Z.
Proof. unfold count. lia. Qed.

Lemma count_split {A : Type} (p : A -> bool) (l : list A) :
  (count p l + count (fun e => negb (p e)) l = Array_length l)%Z.
Proof.
  induction l as [| x l IH]; [reflexivity |].
  rewrite !count_cons. unfold Array_length in *.
  change (List.length (x :: l)) with (S (List.length l)).
  destruct (p x); cbn [negb]; lia.
Qed.

Lemma count_ext {A : Type} (p q : A -> bool) (l : list A) :
  (forall e, p e = q e) -> count p l = count q l.
Proof.
  intro H. induction l as [| x l IH]; [reflexivity |].
  rewrite !count_cons, IH, H. reflexivity.
Qed.

Lemma count_mono {A : Type} (p q : A -> bool) (l : list A) :
  (forall e, p e = true -> q e = true) -> (count p l <= count q l)%Z.
Proof.
  intro H. induction l as [| x l IH]; [reflexivity |].
  rewrite !count_cons.
  destruct (p x) eqn:E; [rewrite (H x E); lia |].
  destruct (q x); lia.
Qed.

(** ** The loop of [computeBenchmarkBeatenCount] *)

Lemma beaten_loop (d : ScoreType) (u : NormalizedScore)
  (b : list NormalizedScore) (acc : Z) :
  fold_left
    (fun beaten bs =>
       if Num.ltb (compareScores d u bs) 0 then (beaten + 1)%Z else beaten)
    b acc = (acc + count (beats d u) b)%Z.
Proof.
  revert acc. induction b as [| e b IH]; intro acc; simpl fold_left.
  - unfold count. simpl. lia.
  - rewrite IH, count_cons. unfold beats at 2.
    destruct (Num.ltb (compareScores d u e) 0); lia.
Qed.

Lemma computeBenchmarkBeatenCount_count (d : ScoreType) (u : NormalizedScore)
  (b : list NormalizedScore) :
  computeBenchmarkBeatenCount d u b = count (beats d u) b.
Proof.
  unfold computeBenchmarkBeatenCount. rewrite beaten_loop. lia.
Qed.

Lemma beats_notAfter (d : ScoreType) (u e : NormalizedScore) :
  negb (beats d u e) = notAfter (compareScores d) u e.
Proof.
  unfold beats, notAfter. f_equal.
  pose proof (compareScores_antisym d u e) as H.
  destruct (Num.ltb (compareScores d u e) 0) eqn:E1;
    destruct (Num.ltb 0 (compareScores d e u)) eqn:E2; try reflexivity;
    try apply ltb_lt in E1; try apply ltb_lt in E2;
    try apply ltb_ge in E1; try apply ltb_ge in E2; lra.
Qed.

Lemma compareScores_lt_trans (d : ScoreType) (a b c : NormalizedScore) :
  compareScores d a b < 0 -> compareScores d b c < 0 -> compareScores d a c < 0.
Proof.
  intros H1 H2.
  destruct (Qlt_le_dec (compareScores d a c) 0) as [L | L]; [exact L |].
  exfalso.
  assert (Hca : compareScores d c a <= 0)
    by (rewrite (compareScores_antisym d c a); lra).
  assert (Hab : compareScores d a b <= 0) by lra.
  pose proof (compareScores_trans d c a b Hca Hab) as Hcb.
  rewrite (compareScores_antisym d c b) in Hcb. lra.
Qed.

(** ** Where [computeRankAmongBenchmarkPlusUser] finds the user *)

Lemma sorted_all_length (d : ScoreType) (u : NormalizedScore)
  (b : list NormalizedScore) :
  Array_length (Array_sort (fun x y => compareScores d x y) (b ++ [u])) =
  (Array_length b + 1)%Z.
Proof.
  unfold Array_length. rewrite Array_sort_length, length_app. simpl. lia.
Qed.

Lemma rank_no_duplicate (d : ScoreType) (u : NormalizedScore)
  (b : list NormalizedScore) :
  forallb (fun e => negb (isSameScore e u)) b = true ->
  computeRankAmongBenchmarkPlusUser d u b =
  (count (notAfter (compareScores d) u) b + 1)%Z.
Proof.
  intro Hb. unfold computeRankAmongBenchmarkPlusUser.
  change (fun x y => compareScores d x y) with (compareScores d).
  rewrite (Array_sort_snoc (compareScores d) (compareScores_trans d) u b).
  unfold Array_findIndex. rewrite findIndex_from_app.
  - rewrite Array_sort_length. fold (count (notAfter (compareScores d) u) b).
    pose proof (count_nonneg (notAfter (compareScores d) u) b) as Hc.
    destruct (Z.eqb_spec (0 + count (notAfter (compareScores d) u) b) (-1)); lia.
  - apply Forall_forall. intros e He.
    apply Array_sort_In in He. apply filter_In in He. destruct He as [He _].
    rewrite forallb_forall in Hb. apply Hb in He.
    apply negb_true_iff in He. exact He.
  - apply isSameScore_refl.
Qed.

(** ** The comparator and the engine on sample scores *)

Example compare_TIME_lower_wins :
  compareScores TIME (timeOnly 600) (timeOnly 700) < 0.
Proof. reflexivity. Qed.

Example compare_REPS_higher_wins :
  compareScores REPS (repsOnly 330) (repsOnly 300) < 0.
Proof. reflexivity. Qed.

Example compare_TIME_REPS_missing_time :
  0 < compareScores TIME_REPS (repsOnly 100) (repsAndTime 100 500).
Proof. reflexivity. Qed.

Example sort_is_stable_on_ties :
  Array_sort (compareScores REPS)
    [repsAndTime 10 1; repsAndTime 20 2; repsAndTime 10 3; repsAndTime 20 4] =
  [repsAndTime 20 2; repsAndTime 20 4; repsAndTime 10 1; repsAndTime 10 3].
Proof. reflexivity. Qed.

(** A benchmark entry identical to the user's score is the one that
    [findIndex] reports: the user ties with it and is ranked in its place. *)
Example rank_with_identical_entry :
  computeRankAmongBenchmarkPlusUser TIME (timeOnly 700)
    [timeOnly 700; timeOnly 600] = 2%Z /\
  computeBenchmarkBeatenCount TIME (timeOnly 700)
    [timeOnly 700; timeOnly 600] = 0%Z.
Proof. split; reflexivity. Qed.

(** * The claims *)

(** C1. [computeBenchmarkBeatenCount] returns exactly the number of
    benchmark entries [e] with [compareScores(discipline, userScore, e) < 0].
    Entries that compare equal to the user score are not counted: the entries
    that are not beaten make up the rest of the list, every tied entry is
    among them, and dropping the tied entries leaves the result unchanged. *)
Theorem beatenCount_counts_strictly_better (d : ScoreType) (u : NormalizedScore)
  (b : list NormalizedScore) :
  computeBenchmarkBeatenCount d u b = count (beats d u) b /\
  (computeBenchmarkBeatenCount d u b + count (fun e => negb (beats d u e)) b
   = Array_length b)%Z /\
  (count (ties d u) b <= count (fun e => negb (beats d u e)) b)%Z /\
  computeBenchmarkBeatenCount d u (filter (fun e => negb (ties d u e)) b)
  = computeBenchmarkBeatenCount d u b.
Proof.
  assert (Hties : forall e, ties d u e = true -> beats d u e = false).
  { intros e He. unfold ties in He. apply Qeq_bool_iff in He.
    unfold beats. apply ltb_ge. lra. }
  rewrite !computeBenchmarkBeatenCount_count. repeat split.
  - apply count_split.
  - apply count_mono. intros e He. rewrite (Hties e He). reflexivity.
  - induction b as [| e b IH]; [reflexivity |].
    simpl filter. destruct (ties d u e) eqn:E; cbn [negb].
    + rewrite IH, count_cons, (Hties e E). lia.
    + rewrite !count_cons, IH. reflexivity.
Qed.

(** C2. [pointsFromRank(rank)] is [41 - rank] for [rank] in [1, 40] and [0]
    for [rank < 1] or [rank > 40]; [pointsFromRank(1) = 40],
    [pointsFromRank(40) = 1], [pointsFromRank(41) = 0],
    [pointsFromRank(0) = 0]; the result is never negative. *)
Theorem pointsFromRank_scale (rank : Z) :
  ((1 <= rank <= 40)%Z -> pointsFromRank rank = (41 - rank)%Z) /\
  ((rank < 1 \/ rank > 40)%Z -> pointsFromRank rank = 0%Z) /\
  pointsFromRank 1 = 40%Z /\
  pointsFromRank 40 = 1%Z /\
  pointsFromRank 41 = 0%Z /\
  pointsFromRank 0 = 0%Z /\
  (0 <= pointsFromRank rank)%Z.
Proof.
  assert (E : pointsFromRank rank =
              if ((1 <=? rank) && (rank <=? 40))%Z then (41 - rank)%Z else 0%Z).
  { unfold pointsFromRank. rewrite Z.gtb_ltb.
    destruct (Z.ltb_spec rank 1), (Z.ltb_spec 40 rank),
      (Z.leb_spec 1 rank), (Z.leb_spec rank 40); cbn [andb]; lia. }
  split; [| split; [| repeat (split; [reflexivity |])]].
  - intro H. rewrite E.
    destruct (Z.leb_spec 1 rank), (Z.leb_spec rank 40); cbn [andb]; lia.
  - intro H. rewrite E.
    destruct (Z.leb_spec 1 rank), (Z.leb_spec rank 40); cbn [andb]; lia.
  - rewrite E.
    destruct (Z.leb_spec 1 rank), (Z.leb_spec rank 40); cbn [andb]; lia.
Qed.

Lemma pointsFromRank_scale_witness :
  pointsFromRank 7 = 34%Z /\ pointsFromRank 55 = 0%Z.
Proof.
  split.
  - apply (proj1 (pointsFromRank_scale 7)). lia.
  - apply (proj1 (proj2 (pointsFromRank_scale 55))). right. lia.
Defined.

(** C3, as the code has it.  Under [TIME_REPS], [compareScores] orders
    descending by [reps] and, on an exact tie in [reps], ascending by
    [timeSeconds ?? Number.MAX_SAFE_INTEGER].  For two scores with equal
    reps of which only [b] has a recorded time [t], the score [a] without a
    time compares strictly worse provided [t] is below the sentinel
    [Number.MAX_SAFE_INTEGER]. *)
Theorem TIME_REPS_order (a b : NormalizedScore) :
  (repsKey b < repsKey a -> compareScores TIME_REPS a b < 0) /\
  (repsKey a < repsKey b -> 0 < compareScores TIME_REPS a b) /\
  (repsKey a == repsKey b ->
   compareScores TIME_REPS a b = timeKey a - timeKey b) /\
  (forall t : Q,
     repsKey a == repsKey b ->
     timeSeconds a = None ->
     timeSeconds b = Some t ->
     t < Num.MAX_SAFE_INTEGER ->
     0 < compareScores TIME_REPS a b /\ compareScores TIME_REPS b a < 0).
Proof.
  repeat split.
  - intro H. rewrite compareScores_TIME_REPS_diff by lra. lra.
  - intro H. rewrite compareScores_TIME_REPS_diff by lra. lra.
  - intro H. apply compareScores_TIME_REPS_tie. lra.
  - rewrite compareScores_TIME_REPS_tie by lra.
    unfold timeKey. rewrite H0, H1. simpl. lra.
  - rewrite compareScores_TIME_REPS_tie by lra.
    unfold timeKey. rewrite H0, H1. simpl. lra.
Qed.

Lemma TIME_REPS_order_witness :
  0 < compareScores TIME_REPS (repsOnly 100) (repsAndTime 100 500) /\
  compareScores TIME_REPS (repsAndTime 120 500) (repsOnly 100) < 0.
Proof.
  split.
  - apply (proj2 (proj2 (proj2
             (TIME_REPS_order (repsOnly 100) (repsAndTime 100 500)))) 500).
    + reflexivity.
    + reflexivity.
    + reflexivity.
    + reflexivity.
  - apply (proj1 (TIME_REPS_order (repsAndTime 120 500) (repsOnly 100))).
    reflexivity.
Defined.

(** C3 as stated fails: a recorded time equal to the sentinel ties with a
    missing time, and a larger one loses to it. *)
Lemma TIME_REPS_missing_time_not_always_worse :
  let a := repsOnly 100 in
  let b := repsAndTime 100 Num.MAX_SAFE_INTEGER in
  let c := repsAndTime 100 (Num.MAX_SAFE_INTEGER + 1) in
  repsKey a == repsKey b /\ timeSeconds a = None /\
  timeSeconds b = Some Num.MAX_SAFE_INTEGER /\
  compareScores TIME_REPS a b == 0 /\
  ~ 0 < compareScores TIME_REPS a b /\
  compareScores TIME_REPS a c < 0.
Proof.
  cbv zeta. repeat split; try reflexivity.
  intro H. vm_compute in H. discriminate H.
Qed.

(** On scores of finite numbers the rank lies in [1, N+1], the sorted
    merged sequence having N+1 elements.  (The fallback of the function is
    reached with NaN fields only; they are treated in [Wide].) *)
Theorem rank_bounds_and_fallback (d : ScoreType) (u : NormalizedScore)
  (b : list NormalizedScore) :
  let all := Array_sort (fun x y => compareScores d x y) (b ++ [u]) in
  let idx := Array_findIndex (fun s => isSameScore s u) all in
  (1 <= computeRankAmongBenchmarkPlusUser d u b <= Array_length b + 1)%Z /\
  Array_length all = (Array_length b + 1)%Z /\
  computeRankAmongBenchmarkPlusUser d u b =
  (if (idx =? -1)%Z then Array_length b + 1 else idx + 1)%Z.
Proof.
  cbv zeta. unfold computeRankAmongBenchmarkPlusUser.
  rewrite sorted_all_length.
  split; [| split; reflexivity].
  unfold Array_findIndex.
  destruct (findIndex_from_bounds (fun s => isSameScore s u)
              (Array_sort (fun x y => compareScores d x y) (b ++ [u])) 0)
    as [H | H].
  - rewrite H. simpl Z.eqb. cbv iota. unfold Array_length. lia.
  - fold (Array_length (Array_sort (fun x y => compareScores d x y) (b ++ [u])))
      in H.
    rewrite sorted_all_length in H.
    match goal with
    | |- context [(?i =? -1)%Z] => destruct (Z.eqb_spec i (-1))
    end; lia.
Qed.

(** C5. [assertScoreMatchesType] throws if and only if the one field that
    the discipline requires is absent (TIME: timeSeconds, REPS: reps, LOAD:
    loadKg, TIME_REPS: reps only); the error names the discipline and the
    field; no other field affects the outcome.  [validate(TIME, {reps:10})]
    fails and [validate(TIME_REPS, {reps:10})] succeeds. *)
Theorem assertScoreMatchesType_required_field (d : ScoreType) (s : NormalizedScore) :
  isThrown (assertScoreMatchesType d s) = negb (Num.isNumber (requiredField d s)) /\
  assertScoreMatchesType d s =
  (if Num.isNumber (requiredField d s) then Returned tt
   else Thrown (disciplineName d ++ " krever " ++ requiredFieldName d)%string) /\
  (forall s' : NormalizedScore,
     Num.isNumber (requiredField d s') = Num.isNumber (requiredField d s) ->
     assertScoreMatchesType d s' = assertScoreMatchesType d s) /\
  assertScoreMatchesType TIME (repsOnly 10) = Thrown "TIME krever timeSeconds" /\
  assertScoreMatchesType TIME_REPS (repsOnly 10) = Returned tt.
Proof.
  assert (E : forall x,
             assertScoreMatchesType d x =
             if Num.isNumber (requiredField d x) then Returned tt
             else Thrown (disciplineName d ++ " krever " ++ requiredFieldName d)%string).
  { intro x. destruct d; unfold assertScoreMatchesType; simpl;
      match goal with |- context [Num.isNumber ?f] => destruct (Num.isNumber f) end;
      reflexivity. }
  split; [| split; [| split; [| split]]].
  - rewrite E. destruct (Num.isNumber (requiredField d s)); reflexivity.
  - apply E.
  - intros s' H. rewrite !E, H. reflexivity.
  - reflexivity.
  - reflexivity.
Qed.

Lemma assertScoreMatchesType_required_field_witness :
  assertScoreMatchesType TIME (repsAndTime 10 600) =
  assertScoreMatchesType TIME (timeOnly 700).
Proof.
  apply (proj1 (proj2 (proj2
           (assertScoreMatchesType_required_field TIME (timeOnly 700))))).
  reflexivity.
Defined.

(** C6. For every discipline and scores [a], [b]:
    [compareScores(d, a, b) = -compareScores(d, b, a)] and
    [compareScores(d, a, a) = 0]. *)
Theorem compareScores_antisymmetric_reflexive (d : ScoreType) (a b : NormalizedScore) :
  compareScores d a b == - compareScores d b a /\
  compareScores d a a == 0.
Proof.
  split; [apply compareScores_antisym |].
  pose proof (compareScores_antisym d a a). lra.
Qed.

(** C7. For a fixed benchmark list, if [u1] is strictly better than [u2]
    ([compareScores(d, u1, u2) < 0]) then the beaten count of [u1] is at
    least that of [u2]. *)
Theorem beatenCount_monotone (d : ScoreType) (u1 u2 : NormalizedScore)
  (b : list NormalizedScore) :
  compareScores d u1 u2 < 0 ->
  (computeBenchmarkBeatenCount d u2 b <= computeBenchmarkBeatenCount d u1 b)%Z.
Proof.
  intro H. rewrite !computeBenchmarkBeatenCount_count.
  apply count_mono. intros e He. unfold beats in *.
  apply ltb_lt. apply ltb_lt in He.
  exact (compareScores_lt_trans d u1 u2 e H He).
Qed.

Lemma beatenCount_monotone_witness :
  (computeBenchmarkBeatenCount TIME (timeOnly 750)
     [timeOnly 600; timeOnly 700; timeOnly 800] <=
   computeBenchmarkBeatenCount TIME (timeOnly 650)
     [timeOnly 600; timeOnly 700; timeOnly 800])%Z.
Proof.
  apply (beatenCount_monotone TIME (timeOnly 650) (timeOnly 750)).
  reflexivity.
Defined.

(** C9. With an empty benchmark list, [computeBenchmarkBeatenCount] returns
    0, [computeRankAmongBenchmarkPlusUser] returns N+1 = 1, and
    [pointsFromRank] of that rank is 40. *)
Theorem empty_benchmark (d : ScoreType) (u : NormalizedScore) :
  computeBenchmarkBeatenCount d u [] = 0%Z /\
  computeRankAmongBenchmarkPlusUser d u [] = (Array_length (@nil NormalizedScore) + 1)%Z /\
  computeRankAmongBenchmarkPlusUser d u [] = 1%Z /\
  pointsFromRank (computeRankAmongBenchmarkPlusUser d u []) = 40%Z.
Proof.
  assert (R : computeRankAmongBenchmarkPlusUser d u [] = 1%Z).
  { unfold computeRankAmongBenchmarkPlusUser. simpl.
    unfold Array_findIndex. simpl. rewrite isSameScore_refl. reflexivity. }
  rewrite R. repeat split; reflexivity.
Qed.

(** C10. When no benchmark entry is structurally identical to the user's
    score, the rank is [N - beatenCount + 1]: the user is placed after every
    benchmark entry that is strictly better than or tied with the user. *)
Theorem rank_from_beatenCount (d : ScoreType) (u : NormalizedScore)
  (b : list NormalizedScore) :
  forallb (fun e => negb (isSameScore e u)) b = true ->
  computeRankAmongBenchmarkPlusUser d u b =
  (Array_length b - computeBenchmarkBeatenCount d u b + 1)%Z /\
  computeRankAmongBenchmarkPlusUser d u b =
  (count (fun e => Qle_bool (compareScores d e u) 0) b + 1)%Z.
Proof.
  intro H. rewrite (rank_no_duplicate d u b H).
  rewrite computeBenchmarkBeatenCount_count.
  pose proof (count_split (beats d u) b) as S.
  rewrite (count_ext _ _ b (beats_notAfter d u)) in S.
  split; [lia |].
  f_equal. apply count_ext. intro e. unfold notAfter.
  destruct (Qle_bool (compareScores d e u) 0) eqn:E.
  - apply Qle_bool_iff in E. apply negb_true_iff. apply ltb_ge. exact E.
  - apply negb_false_iff. apply ltb_lt.
    destruct (Qlt_le_dec 0 (compareScores d e u)) as [L | L]; [exact L |].
    apply Qle_bool_iff in L. congruence.
Qed.

Lemma rank_from_beatenCount_witness :
  computeRankAmongBenchmarkPlusUser TIME (timeOnly 750)
    [timeOnly 800; timeOnly 600; timeOnly 700] = (3 - 1 + 1)%Z.
Proof.
  apply (proj1 (rank_from_beatenCount TIME (timeOnly 750)
                  [timeOnly 800; timeOnly 600; timeOnly 700] eq_refl)).
Defined.

(** ** The loop of [GET /summary] *)

Lemma sumPoints_from (l : list PerWorkout) (acc : Z) :
  fold_left (fun a e => (a + points e)%Z) l acc = (acc + sumPoints l)%Z.
Proof.
  unfold sumPoints. revert acc.
  induction l as [| e l IH]; intro acc; cbn [fold_left]; [lia |].
  rewrite (IH (acc + points e)%Z), (IH (0 + points e)%Z). lia.
Qed.

Lemma sumPoints_app (l1 l2 : list PerWorkout) :
  sumPoints (l1 ++ l2) = (sumPoints l1 + sumPoints l2)%Z.
Proof.
  unfold sumPoints at 1. rewrite fold_left_app.
  fold (sumPoints l1). apply sumPoints_from.
Qed.

Lemma summary_loop (T urs : list Db.ResultRow) (ws : list Db.Workout)
  (st : SummaryState) :
  fold_left (summaryStep T urs) ws st =
  ((fst st + sumPoints (completedEntries T urs ws))%Z,
   snd st ++ completedEntries T urs ws).
Proof.
  revert st. induction ws as [| w ws IH]; intros [tp pw]; simpl fold_left.
  - simpl. rewrite app_nil_r. f_equal. unfold sumPoints. simpl. lia.
  - rewrite IH. unfold summaryStep.
    change (completedEntries T urs (w :: ws)) with
      (match find (fun r => String.eqb (Db.workoutId r) (Db.id w)) urs with
       | None => []
       | Some ur => [perWorkoutEntry T w ur]
       end ++ completedEntries T urs ws).
    destruct (find (fun r => String.eqb (Db.workoutId r) (Db.id w)) urs) as [ur |].
    + fold (perWorkoutEntry T w ur). cbn [fst snd].
      rewrite sumPoints_app, <- app_assoc. f_equal.
      change (sumPoints [perWorkoutEntry T w ur])
        with (0 + points (perWorkoutEntry T w ur))%Z.
      change (points (perWorkoutEntry T w ur)) with
        (pointsFromRank
           (computeRankAmongBenchmarkPlusUser (Db.scoreType w) (Db.score ur)
              (Db.benchmarkResult_findMany T (Db.id w)))).
      lia.
    + reflexivity.
Qed.

Lemma completedEntries_ids (T urs : list Db.ResultRow) (ws : list Db.Workout) :
  map workoutId (completedEntries T urs ws) =
  map Db.id (filter (hasResult urs) ws).
Proof.
  induction ws as [| w ws IH]; [reflexivity |].
  change (completedEntries T urs (w :: ws)) with
    (match find (fun r => String.eqb (Db.workoutId r) (Db.id w)) urs with
     | None => []
     | Some ur => [perWorkoutEntry T w ur]
     end ++ completedEntries T urs ws).
  simpl filter. unfold hasResult at 1.
  destruct (find (fun r => String.eqb (Db.workoutId r) (Db.id w)) urs);
    simpl; rewrite IH; reflexivity.
Qed.

Lemma completedEntries_filter (T urs : list Db.ResultRow) (ws : list Db.Workout) :
  completedEntries T urs (filter (hasResult urs) ws) = completedEntries T urs ws.
Proof.
  induction ws as [| w ws IH]; [reflexivity |].
  simpl filter. destruct (hasResult urs w) eqn:E.
  - unfold completedEntries in *. simpl. rewrite IH. reflexivity.
  - rewrite IH. unfold completedEntries at 2. simpl.
    unfold hasResult in E.
    destruct (find (fun r => String.eqb (Db.workoutId r) (Db.id w)) urs);
      [discriminate E | reflexivity].
Qed.

Lemma summary_entries (T urs : list Db.ResultRow) (ws : list Db.Workout) :
  summary T ws urs =
  {| completedWorkouts := Array_length (completedEntries T urs ws);
     totalPoints := sumPoints (completedEntries T urs ws);
     perWorkout := completedEntries T urs ws |}.
Proof.
  unfold summary. rewrite summary_loop. reflexivity.
Qed.

(** C8. In the season aggregation a workout in scope without a recorded
    performance of the user is skipped: [perWorkout] has exactly the entries
    of the completed workouts in workout-iteration order, [completedWorkouts]
    is their number, [totalPoints] is the sum of their points, and removing
    the workouts without a result from the scope changes nothing.  A user
    with a result for 1 of 3 workouts gets [completedWorkouts = 1] and a
    [perWorkout] of length 1. *)
Theorem summary_skips_unattempted (T urs : list Db.ResultRow) (ws : list Db.Workout) :
  perWorkout (summary T ws urs) = completedEntries T urs ws /\
  map workoutId (perWorkout (summary T ws urs)) =
  map Db.id (filter (hasResult urs) ws) /\
  completedWorkouts (summary T ws urs) = count (hasResult urs) ws /\
  completedWorkouts (summary T ws urs) = Array_length (perWorkout (summary T ws urs)) /\
  totalPoints (summary T ws urs) = sumPoints (perWorkout (summary T ws urs)) /\
  summary T (filter (hasResult urs) ws) urs = summary T ws urs /\
  (forall (ws1 ws2 : list Db.Workout) (w : Db.Workout),
     ws = ws1 ++ w :: ws2 ->
     hasResult urs w = false ->
     summary T (ws1 ++ ws2) urs = summary T ws urs) /\
  summary sampleBenchmark sampleWorkouts sampleUserResults =
  {| completedWorkouts := 1;
     totalPoints := 39;
     perWorkout := [mkPerWorkout "w2" 39 1 2] |} /\
  List.length (perWorkout (summary sampleBenchmark sampleWorkouts sampleUserResults))
  = 1%nat.
Proof.
  split; [rewrite summary_entries; reflexivity |].
  split; [rewrite summary_entries; apply completedEntries_ids |].
  split.
  { rewrite summary_entries. cbn [completedWorkouts]. unfold Array_length, count.
    rewrite <- (length_map workoutId), completedEntries_ids, length_map.
    reflexivity. }
  split; [rewrite summary_entries; reflexivity |].
  split; [rewrite summary_entries; reflexivity |].
  split; [rewrite !summary_entries, completedEntries_filter; reflexivity |].
  split.
  { intros ws1 ws2 w Hws Hw. subst ws. rewrite !summary_entries.
    rewrite <- (completedEntries_filter T urs (ws1 ++ ws2)).
    rewrite <- (completedEntries_filter T urs (ws1 ++ w :: ws2)).
    rewrite !filter_app. simpl filter. rewrite Hw. reflexivity. }
  split; vm_compute; reflexivity.
Qed.

Lemma summary_skips_unattempted_witness :
  summary sampleBenchmark [Db.mkWorkout "w2" REPS; Db.mkWorkout "w3" TIME_REPS]
    sampleUserResults =
  summary sampleBenchmark sampleWorkouts sampleUserResults.
Proof.
  apply (proj1 (proj2 (proj2 (proj2 (proj2 (proj2 (proj2
           (summary_skips_unattempted sampleBenchmark sampleUserResults
              sampleWorkouts)))))))
           [] [Db.mkWorkout "w2" REPS; Db.mkWorkout "w3" TIME_REPS]
           (Db.mkWorkout "w1" TIME)).
  - reflexivity.
  - reflexivity.
Defined.

(** * Further properties of scoring.ts *)

(** ** Identical scores *)

Lemma strictEq_sym (x y : option Q) : Num.strictEq x y = Num.strictEq y x.
Proof.
  destruct x as [a |], y as [b |]; simpl; try reflexivity.
  destruct (Qeq_bool a b) eqn:E1, (Qeq_bool b a) eqn:E2; try reflexivity.
  - apply Qeq_bool_iff in E1. symmetry in E1. apply Qeq_bool_iff in E1. congruence.
  - apply Qeq_bool_iff in E2. symmetry in E2. apply Qeq_bool_iff in E2. congruence.
Qed.

Lemma strictEq_trans (x y z : option Q) :
  Num.strictEq x y = true -> Num.strictEq y z = true -> Num.strictEq x z = true.
Proof.
  destruct x as [a |], y as [b |], z as [c |]; simpl; try congruence.
  intros H1 H2. apply Qeq_bool_iff in H1, H2. apply Qeq_bool_iff.
  rewrite H1. exact H2.
Qed.

Lemma strictEq_values (x y : option Q) (m : Q) :
  Num.strictEq x y = true ->
  Num.toNumber x == Num.toNumber y /\ Num.nullish x m == Num.nullish y m.
Proof.
  destruct x as [a |], y as [b |]; simpl; try discriminate.
  - intro H. apply Qeq_bool_iff in H. split; exact H.
  - intros _. split; reflexivity.
Qed.

Lemma isSameScore_fields (a b : NormalizedScore) :
  isSameScore a b = true <->
  Num.strictEq (timeSeconds a) (timeSeconds b) = true /\
  Num.strictEq (reps a) (reps b) = true /\
  Num.strictEq (loadKg a) (loadKg b) = true /\
  Num.strictEq (tiebreakSecs a) (tiebreakSecs b) = true.
Proof.
  unfold isSameScore. rewrite !orNull_id, !andb_true_iff. tauto.
Qed.

Lemma isSameScore_tie (d : ScoreType) (a b : NormalizedScore) :
  isSameScore a b = true -> compareScores d a b == 0.
Proof.
  intro H. apply isSameScore_fields in H. destruct H as (Ht & Hr & Hl & _).
  pose proof (strictEq_values _ _ Num.MAX_SAFE_INTEGER Ht) as [Ht0 Htm].
  pose proof (strictEq_values _ _ 0 Hr) as [Hr0 _].
  pose proof (strictEq_values _ _ 0 Hl) as [Hl0 _].
  destruct d.
  1-3: unfold compareScores; rewrite !normalize_id; lra.
  rewrite compareScores_TIME_REPS_tie by (unfold repsKey; lra).
  unfold timeKey. lra.
Qed.

(** ** Splitting a sorted array at a threshold *)

Section StablePartition.

Context {A : Type} (cmp : A -> A -> Q) (P : A -> bool).

Hypothesis cmp_antisym : forall x y, cmp x y == - cmp y x.
Hypothesis P_first : forall x y, P x = true -> P y = false -> cmp x y < 0.

Lemma sort_insert_app_left (x : A) (L R : list A) :
  P x = true ->
  Forall (fun e => P e = false) R ->
  sort_insert cmp x (L ++ R) = sort_insert cmp x L ++ R.
Proof.
  intros Hx HR. induction L as [| y L IH]; simpl.
  - destruct R as [| r R]; [reflexivity |]. simpl.
    inversion HR as [| ? ? Hr _]; subst.
    pose proof (P_first x r Hx Hr) as H.
    assert (E : Num.ltb 0 (cmp x r) = false) by (apply ltb_ge; lra).
    rewrite E. reflexivity.
  - destruct (Num.ltb 0 (cmp x y)); simpl; [rewrite IH |]; reflexivity.
Qed.

Lemma sort_insert_app_right (x : A) (L R : list A) :
  P x = false ->
  Forall (fun e => P e = true) L ->
  sort_insert cmp x (L ++ R) = L ++ sort_insert cmp x R.
Proof.
  intros Hx HL. induction HL as [| y L Hy HL IH]; simpl; [reflexivity |].
  pose proof (P_first y x Hy Hx) as H.
  assert (E : Num.ltb 0 (cmp x y) = true)
    by (apply ltb_lt; rewrite (cmp_antisym x y); lra).
  rewrite E, IH. reflexivity.
Qed.

Lemma Array_sort_partition (l : list A) :
  Array_sort cmp l =
  Array_sort cmp (filter P l) ++ Array_sort cmp (filter (fun e => negb (P e)) l).
Proof.
  induction l as [| x l IH]; [reflexivity |].
  simpl filter. change (Array_sort cmp (x :: l)) with (sort_insert cmp x (Array_sort cmp l)).
  rewrite IH. destruct (P x) eqn:E; cbn [negb].
  - change (Array_sort cmp (x :: filter P l))
      with (sort_insert cmp x (Array_sort cmp (filter P l))).
    apply sort_insert_app_left; [exact E |].
    apply Forall_forall. intros e He.
    apply (Permutation_in _ (Permutation_sym (Array_sort_perm cmp _))) in He.
    apply filter_In in He. destruct He as [_ He].
    apply negb_true_iff. exact He.
  - change (Array_sort cmp (x :: filter (fun e => negb (P e)) l))
      with (sort_insert cmp x (Array_sort cmp (filter (fun e => negb (P e)) l))).
    apply sort_insert_app_right; [exact E |].
    apply Forall_forall. intros e He.
    apply (Permutation_in _ (Permutation_sym (Array_sort_perm cmp _))) in He.
    apply filter_In in He. destruct He as [_ He]. exact He.
Qed.

End StablePartition.

Lemma findIndex_from_skip {A : Type} (p : A -> bool) (L R : list A) (i : Z) :
  Forall (fun e => p e = false) L ->
  findIndex_from p (L ++ R) i = findIndex_from p R (i + Z.of_nat (List.length L)).
Proof.
  intro HL. revert i.
  induction HL as [| y L Hy HL IH]; intro i; simpl findIndex_from.
  - f_equal. simpl. lia.
  - rewrite Hy, IH. f_equal. simpl List.length. lia.
Qed.

Lemma findIndex_from_hit {A : Type} (p : A -> bool) (L R : list A) (x : A) (i : Z) :
  p x = true ->
  (i <= findIndex_from p (L ++ x :: R) i <= i + Z.of_nat (List.length L))%Z.
Proof.
  intro Hx. revert i.
  induction L as [| y L IH]; intro i; simpl findIndex_from.
  - rewrite Hx. simpl. lia.
  - destruct (p y); [simpl List.length; lia |].
    specialize (IH (i + 1)%Z). simpl List.length. lia.
Qed.

Lemma count_perm {A : Type} (p : A -> bool) (l l' : list A) :
  Permutation l l' -> count p l = count p l'.
Proof.
  intro H. induction H as [| x l l' _ IH | x y l | l l' l'' _ IH1 _ IH2].
  - reflexivity.
  - rewrite !count_cons, IH. reflexivity.
  - rewrite !count_cons. lia.
  - congruence.
Qed.

Lemma count_le_length {A : Type} (p : A -> bool) (l : list A) :
  (count p l <= Array_length l)%Z.
Proof.
  pose proof (count_split p l). pose proof (count_nonneg (fun e => negb (p e)) l). lia.
Qed.

Lemma compareScores_le_lt_trans (d : ScoreType) (a b c : NormalizedScore) :
  compareScores d a b <= 0 -> compareScores d b c < 0 -> compareScores d a c < 0.
Proof.
  intros H1 H2.
  destruct (Qlt_le_dec (compareScores d a c) 0) as [L | L]; [exact L |].
  exfalso.
  assert (Hca : compareScores d c a <= 0)
    by (rewrite (compareScores_antisym d c a); lra).
  pose proof (compareScores_trans d c a b Hca H1) as Hcb.
  rewrite (compareScores_antisym d c b) in Hcb. lra.
Qed.

Lemma compareScores_lt_le_trans (d : ScoreType) (a b c : NormalizedScore) :
  compareScores d a b < 0 -> compareScores d b c <= 0 -> compareScores d a c < 0.
Proof.
  intros H1 H2.
  destruct (Qlt_le_dec (compareScores d a c) 0) as [L | L]; [exact L |].
  exfalso.
  assert (Hca : compareScores d c a <= 0)
    by (rewrite (compareScores_antisym d c a); lra).
  pose proof (compareScores_trans d b c a H2 Hca) as Hba.
  rewrite (compareScores_antisym d b a) in Hba. lra.
Qed.

(** ** The rank in general *)

Lemma rank_upper (d : ScoreType) (u : NormalizedScore) (b : list NormalizedScore) :
  (computeRankAmongBenchmarkPlusUser d u b
   <= count (notAfter (compareScores d) u) b + 1)%Z.
Proof.
  unfold computeRankAmongBenchmarkPlusUser.
  change (fun x y => compareScores d x y) with (compareScores d).
  rewrite (Array_sort_snoc (compareScores d) (compareScores_trans d) u b).
  unfold Array_findIndex.
  pose proof (findIndex_from_hit (fun s => isSameScore s u)
                (Array_sort (compareScores d) (filter (notAfter (compareScores d) u) b))
                (Array_sort (compareScores d)
                   (filter (fun e => negb (notAfter (compareScores d) u e)) b))
                u 0 (isSameScore_refl u)) as H.
  rewrite Array_sort_length in H.
  fold (count (notAfter (compareScores d) u) b) in H.
  match goal with
  | |- context [(?i =? -1)%Z] => destruct (Z.eqb_spec i (-1))
  end; lia.
Qed.

Lemma rank_lower (d : ScoreType) (u : NormalizedScore) (b : list NormalizedScore) :
  (count (betterThanUser d u) b + 1 <= computeRankAmongBenchmarkPlusUser d u b)%Z.
Proof.
  pose proof (count_le_length (betterThanUser d u) b) as Hle.
  unfold computeRankAmongBenchmarkPlusUser.
  rewrite sorted_all_length.
  change (fun x y => compareScores d x y) with (compareScores d).
  rewrite (Array_sort_partition (compareScores d) (betterThanUser d u)
             (compareScores_antisym d)).
  2:{ intros x y Hx Hy. unfold betterThanUser in *.
      apply ltb_lt in Hx. apply ltb_ge in Hy.
      apply (compareScores_lt_le_trans d x u y Hx).
      rewrite (compareScores_antisym d u y). lra. }
  unfold Array_findIndex. rewrite findIndex_from_skip.
  2:{ apply Forall_forall. intros e He.
      apply Array_sort_In in He. apply filter_In in He. destruct He as [_ He].
      unfold betterThanUser in He. apply ltb_lt in He.
      destruct (isSameScore e u) eqn:E; [| reflexivity].
      pose proof (isSameScore_tie d e u E). lra. }
  rewrite Array_sort_length, !filter_app. simpl filter.
  assert (Eu : betterThanUser d u u = false).
  { unfold betterThanUser. apply ltb_ge.
    pose proof (compareScores_antisym d u u). lra. }
  rewrite Eu, app_nil_r. fold (count (betterThanUser d u) b).
  match goal with
  | |- context [findIndex_from ?p ?l ?i] =>
      destruct (findIndex_from_bounds p l i) as [H | H]; [rewrite H |]
  end.
  - simpl Z.eqb. cbv iota. lia.
  - match goal with
    | |- context [(?i =? -1)%Z] => destruct (Z.eqb_spec i (-1))
    end; lia.
Qed.

(** X1. For a fixed discipline [compareScores] is a total preorder: any two
    scores are comparable, "no later than" is transitive, and so is "ties
    with". *)
Theorem compareScores_total_preorder (d : ScoreType) (a b c : NormalizedScore) :
  (compareScores d a b <= 0 \/ compareScores d b a <= 0) /\
  (compareScores d a b <= 0 -> compareScores d b c <= 0 ->
   compareScores d a c <= 0) /\
  (compareScores d a b == 0 -> compareScores d b c == 0 ->
   compareScores d a c == 0).
Proof.
  split; [| split].
  - pose proof (compareScores_antisym d a b).
    destruct (Qlt_le_dec 0 (compareScores d a b)); [right | left]; lra.
  - apply compareScores_trans.
  - intros H1 H2.
    assert (L : compareScores d a c <= 0)
      by (apply (compareScores_trans d a b c); lra).
    assert (R : compareScores d c a <= 0).
    { apply (compareScores_trans d c b a).
      - rewrite (compareScores_antisym d c b). lra.
      - rewrite (compareScores_antisym d b a). lra. }
    rewrite (compareScores_antisym d c a) in R. lra.
Qed.

Lemma compareScores_total_preorder_witness :
  compareScores TIME_REPS (repsAndTime 120 500) (repsOnly 100) <= 0 /\
  compareScores REPS (repsOnly 10) (repsAndTime 10 500) == 0.
Proof.
  split.
  - apply (proj1 (proj2 (compareScores_total_preorder TIME_REPS
             (repsAndTime 120 500) (repsAndTime 100 500) (repsOnly 100)))).
    + vm_compute. discriminate.
    + vm_compute. discriminate.
  - apply (proj2 (proj2 (compareScores_total_preorder REPS
             (repsOnly 10) (repsAndTime 10 700) (repsAndTime 10 500)))).
    + reflexivity.
    + reflexivity.
Defined.

(** X2. [isSameScore] is an equivalence on scores, and two scores that it
    identifies tie under every discipline. *)
Theorem isSameScore_equivalence (a b c : NormalizedScore) :
  isSameScore a a = true /\
  isSameScore a b = isSameScore b a /\
  (isSameScore a b = true -> isSameScore b c = true -> isSameScore a c = true) /\
  (forall d : ScoreType, isSameScore a b = true -> compareScores d a b == 0).
Proof.
  split; [apply isSameScore_refl |].
  split.
  { unfold isSameScore.
    rewrite (strictEq_sym (Num.orNull (timeSeconds a))),
      (strictEq_sym (Num.orNull (reps a))),
      (strictEq_sym (Num.orNull (loadKg a))),
      (strictEq_sym (Num.orNull (tiebreakSecs a))).
    reflexivity. }
  split.
  { intros H1 H2. apply isSameScore_fields in H1, H2. apply isSameScore_fields.
    destruct H1 as (A1 & A2 & A3 & A4), H2 as (B1 & B2 & B3 & B4).
    repeat split; eapply strictEq_trans; eassumption. }
  intros d H. apply isSameScore_tie. exact H.
Qed.

Lemma isSameScore_equivalence_witness :
  isSameScore (repsAndTime 10 (1 # 2)) (repsAndTime 10 (3 # 6)) = true /\
  compareScores TIME (repsAndTime 10 (1 # 2)) (repsAndTime 10 (2 # 4)) == 0.
Proof.
  split.
  - apply (proj1 (proj2 (proj2 (isSameScore_equivalence
             (repsAndTime 10 (1 # 2)) (repsAndTime 10 (2 # 4))
             (repsAndTime 10 (3 # 6))))));
      reflexivity.
  - apply (proj2 (proj2 (proj2 (isSameScore_equivalence
             (repsAndTime 10 (1 # 2)) (repsAndTime 10 (2 # 4))
             (repsAndTime 10 (3 # 6))))) TIME).
    reflexivity.
Defined.

(** X3. [tiebreakSecs] is never consulted by the comparator, the beaten
    count or the validator: replacing it in any of the scores leaves their
    results unchanged. *)
Theorem tiebreakSecs_is_ignored (d : ScoreType) (a b : NormalizedScore)
  (ta tb : option Q) (bench : list NormalizedScore) (f : NormalizedScore -> option Q) :
  compareScores d (withTiebreak a ta) (withTiebreak b tb) = compareScores d a b /\
  computeBenchmarkBeatenCount d (withTiebreak a ta)
    (map (fun e => withTiebreak e (f e)) bench)
  = computeBenchmarkBeatenCount d a bench /\
  assertScoreMatchesType d (withTiebreak a ta) = assertScoreMatchesType d a.
Proof.
  assert (C : forall x y tx ty,
             compareScores d (withTiebreak x tx) (withTiebreak y ty)
             = compareScores d x y)
    by (intros; destruct d; reflexivity).
  split; [apply C |]. split; [| destruct d; reflexivity].
  rewrite !computeBenchmarkBeatenCount_count.
  induction bench as [| e bench IH]; [reflexivity |].
  cbn [map]. rewrite !count_cons, IH. unfold beats. rewrite C. reflexivity.
Qed.

(** X4. With a single benchmark entry that ties with the user, the user
    shares rank 1 with it only when the two scores are identical in all four
    fields; a tied entry that differs (for instance in [tiebreakSecs]) is
    placed ahead and the user gets rank 2. *)
Theorem rank_against_one_tied_entry (d : ScoreType) (u e : NormalizedScore) :
  compareScores d e u == 0 ->
  computeRankAmongBenchmarkPlusUser d u [e] =
  (if isSameScore e u then 1 else 2)%Z.
Proof.
  intro H. unfold computeRankAmongBenchmarkPlusUser. simpl.
  assert (E : Num.ltb 0 (compareScores d e u) = false) by (apply ltb_ge; lra).
  rewrite E. unfold Array_findIndex. simpl.
  destruct (isSameScore e u); [reflexivity |].
  rewrite isSameScore_refl. reflexivity.
Qed.

Lemma rank_against_one_tied_entry_witness :
  computeRankAmongBenchmarkPlusUser TIME (timeOnly 700)
    [withTiebreak (timeOnly 700) (Some 5)] = 2%Z.
Proof.
  apply (rank_against_one_tied_entry TIME (timeOnly 700)
           (withTiebreak (timeOnly 700) (Some 5))).
  reflexivity.
Defined.

(** X5. A missing compared field is read as 0 by the subtraction.  Under
    TIME a score without [timeSeconds] therefore compares strictly better
    than any score with a positive time; under REPS and LOAD a score without
    the value compares strictly worse than any score with a positive one. *)
Theorem missing_field_compares_as_zero (a b : NormalizedScore) (v : Q) :
  0 < v ->
  (timeSeconds a = None -> timeSeconds b = Some v -> compareScores TIME a b < 0) /\
  (reps a = None -> reps b = Some v -> 0 < compareScores REPS a b) /\
  (loadKg a = None -> loadKg b = Some v -> 0 < compareScores LOAD a b).
Proof.
  intro Hv. unfold compareScores. rewrite !normalize_id.
  repeat split; intros Ha Hb; rewrite Ha, Hb; simpl; lra.
Qed.

Lemma missing_field_compares_as_zero_witness :
  compareScores TIME (repsOnly 10) (timeOnly 600) < 0.
Proof.
  apply (proj1 (missing_field_compares_as_zero (repsOnly 10) (timeOnly 600) 600
                  eq_refl));
    reflexivity.
Defined.

(** X6. The beaten count lies between 0 and the size of the benchmark and
    does not depend on the order of the benchmark rows. *)
Theorem beatenCount_bounds_and_order (d : ScoreType) (u : NormalizedScore)
  (b b' : list NormalizedScore) :
  (0 <= computeBenchmarkBeatenCount d u b <= Array_length b)%Z /\
  (Permutation b b' ->
   computeBenchmarkBeatenCount d u b' = computeBenchmarkBeatenCount d u b).
Proof.
  rewrite !computeBenchmarkBeatenCount_count. split.
  - split; [apply count_nonneg | apply count_le_length].
  - intro H. symmetry. apply count_perm. exact H.
Qed.

Lemma beatenCount_bounds_and_order_witness :
  computeBenchmarkBeatenCount TIME (timeOnly 650)
    [timeOnly 800; timeOnly 600; timeOnly 700] =
  computeBenchmarkBeatenCount TIME (timeOnly 650)
    [timeOnly 600; timeOnly 800; timeOnly 700].
Proof.
  apply (proj2 (beatenCount_bounds_and_order TIME (timeOnly 650)
                  [timeOnly 600; timeOnly 800; timeOnly 700]
                  [timeOnly 800; timeOnly 600; timeOnly 700])).
  apply perm_swap.
Defined.

(** X7. Whatever the benchmark contains, the rank is at least one more than
    the number of entries strictly better than the user and at most
    [N - beatenCount + 1]. *)
Theorem rank_between_better_and_not_beaten (d : ScoreType) (u : NormalizedScore)
  (b : list NormalizedScore) :
  (count (betterThanUser d u) b + 1
   <= computeRankAmongBenchmarkPlusUser d u b
   <= Array_length b - computeBenchmarkBeatenCount d u b + 1)%Z.
Proof.
  split; [apply rank_lower |].
  pose proof (rank_upper d u b) as H.
  rewrite computeBenchmarkBeatenCount_count.
  pose proof (count_split (beats d u) b) as S.
  rewrite (count_ext _ _ b (beats_notAfter d u)) in S. lia.
Qed.

(** X8. A strictly better score never gets a worse rank or fewer points
    against the same benchmark, identical entries or not. *)
Theorem better_score_never_ranks_worse (d : ScoreType) (u1 u2 : NormalizedScore)
  (b : list NormalizedScore) :
  compareScores d u1 u2 < 0 ->
  (computeRankAmongBenchmarkPlusUser d u1 b
   <= computeRankAmongBenchmarkPlusUser d u2 b)%Z /\
  (pointsFromRank (computeRankAmongBenchmarkPlusUser d u2 b)
   <= pointsFromRank (computeRankAmongBenchmarkPlusUser d u1 b))%Z.
Proof.
  intro H.
  pose proof (rank_upper d u1 b) as U.
  pose proof (rank_lower d u2 b) as L.
  pose proof (rank_lower d u1 b) as L1.
  pose proof (count_nonneg (betterThanUser d u1) b) as N1.
  assert (M : (count (notAfter (compareScores d) u1) b
               <= count (betterThanUser d u2) b)%Z).
  { apply count_mono. intros e He. unfold notAfter in He. unfold betterThanUser.
    apply negb_true_iff, ltb_ge in He. apply ltb_lt.
    exact (compareScores_le_lt_trans d e u1 u2 He H). }
  split; [lia |].
  unfold pointsFromRank.
  repeat match goal with
         | |- context [(?x <? ?y)%Z] => destruct (Z.ltb_spec x y)
         | |- context [(?x >? ?y)%Z] => rewrite (Z.gtb_ltb x y)
         end; lia.
Qed.

Lemma better_score_never_ranks_worse_witness :
  (computeRankAmongBenchmarkPlusUser TIME (timeOnly 650)
     [timeOnly 700; timeOnly 600; timeOnly 700]
   <= computeRankAmongBenchmarkPlusUser TIME (timeOnly 700)
        [timeOnly 700; timeOnly 600; timeOnly 700])%Z.
Proof.
  apply (proj1 (better_score_never_ranks_worse TIME (timeOnly 650) (timeOnly 700)
                  [timeOnly 700; timeOnly 600; timeOnly 700] eq_refl)).
Defined.

Lemma count_all {A : Type} (p : A -> bool) (l : list A) :
  forallb p l = true -> count p l = Array_length l.
Proof.
  intro H. induction l as [| x l IH]; [reflexivity |].
  simpl in H. apply andb_true_iff in H. destruct H as [Hx Hl].
  rewrite count_cons, Hx, (IH Hl). unfold Array_length.
  change (List.length (x :: l)) with (S (List.length l)). lia.
Qed.

(** X9. When no benchmark entry is identical to the user's score, the rank
    does not depend on the order in which the benchmark rows arrive. *)
Theorem rank_order_independent (d : ScoreType) (u : NormalizedScore)
  (b b' : list NormalizedScore) :
  forallb (fun e => negb (isSameScore e u)) b = true ->
  Permutation b b' ->
  computeRankAmongBenchmarkPlusUser d u b' = computeRankAmongBenchmarkPlusUser d u b.
Proof.
  intros H HP.
  assert (H' : forallb (fun e => negb (isSameScore e u)) b' = true).
  { apply forallb_forall. intros e He.
    rewrite forallb_forall in H. apply H.
    exact (Permutation_in _ (Permutation_sym HP) He). }
  rewrite (rank_no_duplicate d u b H), (rank_no_duplicate d u b' H').
  f_equal. symmetry. apply count_perm. exact HP.
Qed.

Lemma rank_order_independent_witness :
  computeRankAmongBenchmarkPlusUser TIME (timeOnly 650)
    [timeOnly 800; timeOnly 600; timeOnly 700] =
  computeRankAmongBenchmarkPlusUser TIME (timeOnly 650)
    [timeOnly 600; timeOnly 800; timeOnly 700].
Proof.
  apply (rank_order_independent TIME (timeOnly 650)
           [timeOnly 600; timeOnly 800; timeOnly 700]
           [timeOnly 800; timeOnly 600; timeOnly 700] eq_refl).
  apply perm_swap.
Defined.

(** X10. When no benchmark entry is identical to the user's score, the
    points are [beatenCount + 40 - N], cut off at 0; against a benchmark of
    exactly 40 entries the points equal the number of entries beaten. *)
Theorem points_from_beatenCount (d : ScoreType) (u : NormalizedScore)
  (b : list NormalizedScore) :
  forallb (fun e => negb (isSameScore e u)) b = true ->
  pointsFromRank (computeRankAmongBenchmarkPlusUser d u b) =
  Z.max 0 (computeBenchmarkBeatenCount d u b + 40 - Array_length b) /\
  (Array_length b = 40%Z ->
   pointsFromRank (computeRankAmongBenchmarkPlusUser d u b) =
   computeBenchmarkBeatenCount d u b).
Proof.
  intro H. rewrite (rank_no_duplicate d u b H).
  rewrite computeBenchmarkBeatenCount_count.
  pose proof (count_split (beats d u) b) as S.
  rewrite (count_ext _ _ b (beats_notAfter d u)) in S.
  pose proof (count_nonneg (beats d u) b) as N0.
  pose proof (count_nonneg (notAfter (compareScores d) u) b) as N1.
  unfold pointsFromRank.
  split; [| intro HN];
    repeat match goal with
           | |- context [(?x <? ?y)%Z] => destruct (Z.ltb_spec x y)
           | |- context [(?x >? ?y)%Z] => rewrite (Z.gtb_ltb x y)
           end; lia.
Qed.

Lemma points_from_beatenCount_witness :
  pointsFromRank (computeRankAmongBenchmarkPlusUser TIME (timeOnly 650)
                    [timeOnly 800; timeOnly 600; timeOnly 700]) =
  Z.max 0 (computeBenchmarkBeatenCount TIME (timeOnly 650)
             [timeOnly 800; timeOnly 600; timeOnly 700] + 40 - 3).
Proof.
  apply (proj1 (points_from_beatenCount TIME (timeOnly 650)
                  [timeOnly 800; timeOnly 600; timeOnly 700] eq_refl)).
Defined.

(** X11. A user who is strictly better than every benchmark entry gets rank
    1 and 40 points; a user to whom every benchmark entry is strictly
    better gets rank N+1, beats nobody, and gets 0 points once the benchmark
    has 40 entries or more. *)
Theorem rank_at_the_extremes (d : ScoreType) (u : NormalizedScore)
  (b : list NormalizedScore) :
  (forallb (beats d u) b = true ->
   computeBenchmarkBeatenCount d u b = Array_length b /\
   computeRankAmongBenchmarkPlusUser d u b = 1%Z /\
   pointsFromRank (computeRankAmongBenchmarkPlusUser d u b) = 40%Z) /\
  (forallb (betterThanUser d u) b = true ->
   computeBenchmarkBeatenCount d u b = 0%Z /\
   computeRankAmongBenchmarkPlusUser d u b = (Array_length b + 1)%Z /\
   ((40 <= Array_length b)%Z ->
    pointsFromRank (computeRankAmongBenchmarkPlusUser d u b) = 0%Z)).
Proof.
  pose proof (rank_lower d u b) as L.
  pose proof (rank_upper d u b) as U.
  pose proof (count_split (beats d u) b) as S.
  rewrite (count_ext _ _ b (beats_notAfter d u)) in S.
  pose proof (count_nonneg (betterThanUser d u) b) as N0.
  pose proof (count_nonneg (beats d u) b) as N1.
  pose proof (count_le_length (notAfter (compareScores d) u) b) as N2.
  rewrite computeBenchmarkBeatenCount_count.
  split; intro H.
  - rewrite (count_all _ _ H) in *.
    assert (R : computeRankAmongBenchmarkPlusUser d u b = 1%Z) by lia.
    rewrite R. repeat split; reflexivity.
  - rewrite (count_all _ _ H) in *.
    assert (R : computeRankAmongBenchmarkPlusUser d u b = (Array_length b + 1)%Z)
      by lia.
    rewrite R. split; [lia |]. split; [reflexivity |].
    intro HN. unfold pointsFromRank.
    repeat match goal with
           | |- context [(?x <? ?y)%Z] => destruct (Z.ltb_spec x y)
           | |- context [(?x >? ?y)%Z] => rewrite (Z.gtb_ltb x y)
           end; lia.
Qed.

Lemma rank_at_the_extremes_witness :
  computeRankAmongBenchmarkPlusUser REPS (repsOnly 500)
    [repsOnly 420; repsOnly 330; repsOnly 260] = 1%Z /\
  computeRankAmongBenchmarkPlusUser REPS (repsOnly 100)
    [repsOnly 420; repsOnly 330; repsOnly 260] = (3 + 1)%Z.
Proof.
  split.
  - apply (proj1 (rank_at_the_extremes REPS (repsOnly 500)
                    [repsOnly 420; repsOnly 330; repsOnly 260]) eq_refl).
  - apply (proj2 (rank_at_the_extremes REPS (repsOnly 100)
                    [repsOnly 420; repsOnly 330; repsOnly 260]) eq_refl).
Defined.

(** * Properties of the routes of server.ts *)

Lemma pointsFromRank_range (r : Z) : (0 <= pointsFromRank r <= 40)%Z.
Proof.
  unfold pointsFromRank. rewrite Z.gtb_ltb.
  destruct (Z.ltb_spec r 1), (Z.ltb_spec 40 r); lia.
Qed.

Lemma sumPoints_cons (e : PerWorkout) (l : list PerWorkout) :
  sumPoints (e :: l) = (points e + sumPoints l)%Z.
Proof.
  change (e :: l) with ([e] ++ l). rewrite sumPoints_app.
  unfold sumPoints at 1. simpl. lia.
Qed.

Lemma rank_at_least_one (d : ScoreType) (u : NormalizedScore)
  (b : list NormalizedScore) :
  (1 <= computeRankAmongBenchmarkPlusUser d u b)%Z.
Proof.
  pose proof (rank_lower d u b). pose proof (count_nonneg (betterThanUser d u) b).
  lia.
Qed.

Lemma perWorkoutEntry_ranges (T : list Db.ResultRow) (w : Db.Workout)
  (ur : Db.ResultRow) :
  let e := perWorkoutEntry T w ur in
  (0 <= points e <= 40)%Z /\ (1 <= rank e)%Z /\ (0 <= beatenCount e)%Z /\
  workoutId e = Db.id w.
Proof.
  cbv zeta. unfold perWorkoutEntry. cbn [points rank beatenCount workoutId].
  split; [apply pointsFromRank_range |].
  split; [apply rank_at_least_one |].
  split; [| reflexivity].
  rewrite computeBenchmarkBeatenCount_count. apply count_nonneg.
Qed.

Lemma find_eqb_id (WT : list Db.Workout) (wid : string) (w : Db.Workout) :
  workout_findUnique WT wid = Some w -> Db.id w = wid /\ In w WT.
Proof.
  intro H. apply find_some in H. destruct H as [Hin He].
  apply String.eqb_eq in He. split; assumption.
Qed.

(** Once the user is resolved, the compare route fails with 404 exactly
    when the workout does not exist or the user has no result for it;
    otherwise the reply is about the requested workout and the user's own
    row, with the counts in range. *)
Lemma compareWorkout_resolved (WT : list Db.Workout) (T urs : list Db.ResultRow)
  (wid : string) :
  match compareWorkout WT T urs wid with
  | Failed code _ =>
      code = 404%Z /\
      (workout_findUnique WT wid = None \/ userResult_findUnique urs wid = None)
  | Sent p =>
      workout_findUnique WT wid = Some (Compare.workout p) /\
      Db.id (Compare.workout p) = wid /\
      (exists ur, In ur urs /\ Db.workoutId ur = wid /\
                  Compare.userScore p = Db.score ur) /\
      (0 <= Compare.beatenCount p <= Compare.benchmarkTotal p)%Z /\
      (1 <= Compare.rankAmongBenchmarkPlusUser p
       <= Compare.benchmarkTotal p - Compare.beatenCount p + 1)%Z /\
      (0 <= Compare.pointsEarned p <= 40)%Z
  end.
Proof.
  unfold compareWorkout.
  destruct (workout_findUnique WT wid) as [w |] eqn:Ew; [| split; [reflexivity | left; reflexivity]].
  destruct (userResult_findUnique urs wid) as [ur |] eqn:Eu;
    [| split; [reflexivity | right; reflexivity]].
  cbn [Compare.workout Compare.userScore Compare.benchmarkTotal Compare.beatenCount
       Compare.rankAmongBenchmarkPlusUser Compare.pointsEarned].
  split; [reflexivity |].
  split; [exact (proj1 (find_eqb_id WT wid w Ew)) |].
  split.
  { exists ur. unfold userResult_findUnique in Eu. apply find_some in Eu.
    destruct Eu as [Hin He]. apply String.eqb_eq in He. auto. }
  pose proof (rank_lower (Db.scoreType w) (Db.score ur)
                (Db.benchmarkResult_findMany T wid)) as L.
  pose proof (rank_upper (Db.scoreType w) (Db.score ur)
                (Db.benchmarkResult_findMany T wid)) as U.
  pose proof (count_nonneg (betterThanUser (Db.scoreType w) (Db.score ur))
                (Db.benchmarkResult_findMany T wid)) as N0.
  pose proof (count_split (beats (Db.scoreType w) (Db.score ur))
                (Db.benchmarkResult_findMany T wid)) as S.
  rewrite (count_ext _ _ _ (beats_notAfter (Db.scoreType w) (Db.score ur))) in S.
  rewrite computeBenchmarkBeatenCount_count.
  pose proof (count_nonneg (beats (Db.scoreType w) (Db.score ur))
                (Db.benchmarkResult_findMany T wid)) as N1.
  pose proof (count_le_length (beats (Db.scoreType w) (Db.score ur))
                (Db.benchmarkResult_findMany T wid)) as N2.
  split; [lia |]. split; [lia |]. apply pointsFromRank_range.
Qed.

(** X13. [GET /summary] and [GET /compare/workout/:workoutId] agree: for a
    workout in scope that the user has completed, the entry of the summary
    carries the points, beaten count and rank that the compare route reports
    for that workout. *)
Theorem summary_agrees_with_compare (WT : list Db.Workout)
  (T urs : list Db.ResultRow) (ws : list Db.Workout) (w : Db.Workout) :
  In w ws ->
  workout_findUnique WT (Db.id w) = Some w ->
  hasResult urs w = true ->
  exists p : Compare.t,
    compareWorkout WT T urs (Db.id w) = Sent p /\
    In {| workoutId := Db.id w;
          points := Compare.pointsEarned p;
          beatenCount := Compare.beatenCount p;
          rank := Compare.rankAmongBenchmarkPlusUser p |}
       (perWorkout (summary T ws urs)).
Proof.
  intros Hin Hw Hr. unfold compareWorkout. rewrite Hw.
  unfold hasResult in Hr. unfold userResult_findUnique.
  destruct (find (fun r => String.eqb (Db.workoutId r) (Db.id w)) urs)
    as [ur |] eqn:Eu; [| discriminate Hr].
  eexists. split; [reflexivity |].
  cbn [Compare.pointsEarned Compare.beatenCount Compare.rankAmongBenchmarkPlusUser].
  rewrite summary_entries. cbn [perWorkout].
  unfold completedEntries. apply in_flat_map. exists w. split; [exact Hin |].
  rewrite Eu. left. reflexivity.
Qed.

Lemma summary_agrees_with_compare_witness :
  exists p : Compare.t,
    compareWorkout sampleWorkouts sampleBenchmark sampleUserResults "w2" = Sent p /\
    In {| workoutId := "w2";
          points := Compare.pointsEarned p;
          beatenCount := Compare.beatenCount p;
          rank := Compare.rankAmongBenchmarkPlusUser p |}
       (perWorkout (summary sampleBenchmark sampleWorkouts sampleUserResults)).
Proof.
  apply (summary_agrees_with_compare sampleWorkouts sampleBenchmark
           sampleUserResults sampleWorkouts (Db.mkWorkout "w2" REPS)).
  - right. left. reflexivity.
  - reflexivity.
  - reflexivity.
Defined.

Lemma completedEntries_ranges (T urs : list Db.ResultRow) (ws : list Db.Workout) :
  Forall (fun e => (0 <= points e <= 40)%Z /\ (1 <= rank e)%Z /\
                   (0 <= beatenCount e)%Z)
    (completedEntries T urs ws).
Proof.
  apply Forall_forall. intros e He. unfold completedEntries in He.
  apply in_flat_map in He. destruct He as (w & _ & He).
  destruct (find (fun r => String.eqb (Db.workoutId r) (Db.id w)) urs) as [ur |];
    [| destruct He].
  destruct He as [<- | []].
  pose proof (perWorkoutEntry_ranges T w ur) as H. cbv zeta in H. tauto.
Qed.

(** X14. In every summary [0 <= completedWorkouts <= number of workouts in
    scope] and [0 <= totalPoints <= 40 * completedWorkouts]; every entry has
    between 0 and 40 points and a rank of at least 1.  A user without any
    result, or an empty scope, gives the all-zero summary that the handler
    also returns for an unknown season. *)
Theorem summary_bounds (T urs : list Db.ResultRow) (ws : list Db.Workout) :
  (0 <= completedWorkouts (summary T ws urs) <= Array_length ws)%Z /\
  (0 <= totalPoints (summary T ws urs)
   <= 40 * completedWorkouts (summary T ws urs))%Z /\
  Forall (fun e => (0 <= points e <= 40)%Z /\ (1 <= rank e)%Z /\
                   (0 <= beatenCount e)%Z)
    (perWorkout (summary T ws urs)) /\
  summary T ws [] = mkSummary 0 0 [] /\
  summary T [] urs = mkSummary 0 0 [].
Proof.
  split; [| split; [| split; [| split]]].
  - rewrite summary_entries. cbn [completedWorkouts].
    unfold Array_length.
    rewrite <- (length_map workoutId), completedEntries_ids, length_map.
    pose proof (count_le_length (hasResult urs) ws) as H.
    unfold count, Array_length in H. lia.
  - rewrite summary_entries. cbn [completedWorkouts totalPoints].
    pose proof (completedEntries_ranges T urs ws) as H.
    induction H as [| e l He _ IH].
    + unfold Array_length, sumPoints. simpl. lia.
    + rewrite sumPoints_cons. unfold Array_length in *.
      change (List.length (e :: l)) with (S (List.length l)). lia.
  - rewrite summary_entries. apply completedEntries_ranges.
  - rewrite summary_entries.
    assert (E : completedEntries T [] ws = []).
    { unfold completedEntries. induction ws as [| w ws IH]; [reflexivity |].
      simpl. exact IH. }
    rewrite E. reflexivity.
  - reflexivity.
Qed.

(** ** The leaderboards *)

Lemma ordered_app {A : Type} (cmp : A -> A -> Q) (l1 l2 : list A) :
  ordered cmp (l1 ++ l2) ->
  ordered cmp l1 /\ ordered cmp l2 /\
  (forall x y, In x l1 -> In y l2 -> cmp x y <= 0).
Proof.
  induction l1 as [| a l1 IH]; simpl; intro H.
  - repeat split; [exact H | intros x y []].
  - destruct H as [Ha Hl]. destruct (IH Hl) as (O1 & O2 & C).
    apply Forall_app in Ha. destruct Ha as [Ha1 Ha2].
    repeat split; try assumption.
    intros x y [<- | Hx] Hy.
    + rewrite Forall_forall in Ha2. apply Ha2. exact Hy.
    + apply C; assumption.
Qed.

Lemma ordered_map {A B : Type} (cmp : B -> B -> Q) (f : A -> B) (l : list A) :
  ordered (fun a b => cmp (f a) (f b)) l -> ordered cmp (map f l).
Proof.
  induction l as [| a l IH]; simpl; [trivial |].
  intros [Ha Hl]. split; [| apply IH; exact Hl].
  apply Forall_map. exact Ha.
Qed.

Lemma mapi_from_length {A B : Type} (f : A -> Z -> B) (l : list A) (i : Z) :
  List.length (mapi_from f l i) = List.length l.
Proof.
  revert i. induction l as [| x l IH]; intro i; simpl; [| rewrite IH]; reflexivity.
Qed.

Lemma mapi_from_map {A B C : Type} (f : A -> Z -> B) (g : B -> C) (h : A -> C)
  (l : list A) (i : Z) :
  (forall x j, g (f x j) = h x) -> map g (mapi_from f l i) = map h l.
Proof.
  intro H. revert i. induction l as [| x l IH]; intro i; simpl;
    [| rewrite H, IH]; reflexivity.
Qed.

Lemma mapi_from_index {A B : Type} (f : A -> Z -> B) (g : B -> Z)
  (l : list A) (i : Z) :
  (forall x j, g (f x j) = (j + 1)%Z) ->
  map g (mapi_from f l i) = Zseq (i + 1) (List.length l).
Proof.
  intro H. revert i. induction l as [| x l IH]; intro i; simpl;
    [| rewrite H, IH]; reflexivity.
Qed.

Lemma firstn_min {A : Type} (n : nat) (l : list A) :
  firstn (Nat.min n (List.length l)) l = firstn n l.
Proof.
  destruct (Nat.le_ge_cases n (List.length l)) as [H | H].
  - rewrite Nat.min_l by exact H. reflexivity.
  - rewrite Nat.min_r by exact H.
    rewrite firstn_all, firstn_all2 by exact H. reflexivity.
Qed.

Lemma leaderboardLimit_cases (qlimit : option JsNumber) :
  match leaderboardLimit qlimit with
  | NaN => qlimit = Some NaN
  | Finite x => 1 <= x <= 200
  | NegInfinity | PosInfinity => False
  end.
Proof.
  unfold leaderboardLimit.
  destruct qlimit as [[| | q |] |]; simpl; try reflexivity; try lra.
  destruct (Num.ltb q 200) eqn:E1; simpl.
  - destruct (Num.ltb 1 q) eqn:E2.
    + apply ltb_lt in E1, E2. lra.
    + lra.
  - apply ltb_ge in E1. lra.
Qed.

Lemma slice0_limit {A : Type} (l : list A) (x : Q) :
  1 <= x <= 200 ->
  Array_slice0 l (Finite x) = firstn (Z.to_nat (Qfloor x)) l /\
  (1 <= Qfloor x <= 200)%Z.
Proof.
  intros [H1 H2].
  assert (F1 : (1 <= Qfloor x)%Z)
    by (rewrite <- (Qfloor_Z 1); apply Qfloor_resp_le; exact H1).
  assert (F2 : (Qfloor x <= 200)%Z)
    by (rewrite <- (Qfloor_Z 200); apply Qfloor_resp_le; exact H2).
  split; [| lia].
  unfold Array_slice0, truncate.
  assert (E : Num.ltb x 0 = false) by (apply ltb_ge; lra).
  rewrite E.
  destruct (Z.ltb_spec (Qfloor x) 0) as [L | L]; [lia |].
  unfold Array_length. rewrite Z2Nat.inj_min, Nat2Z.id. apply firstn_min.
Qed.

(** X15. The limit of the user leaderboard is 50 when the query has none,
    and otherwise the query's number brought into [1, 200]; infinities are
    clamped as well.  Only a query value that is not a number leaves the
    limit at NaN. *)
Theorem leaderboardLimit_clamped (qlimit : option JsNumber) :
  match leaderboardLimit qlimit with
  | NaN => qlimit = Some NaN
  | Finite x => 1 <= x <= 200
  | NegInfinity | PosInfinity => False
  end /\
  leaderboardLimit None = Finite 50 /\
  leaderboardLimit (Some PosInfinity) = Finite 200 /\
  leaderboardLimit (Some NegInfinity) = Finite 1 /\
  leaderboardLimit (Some NaN) = NaN /\
  (forall x : Q, x <= 1 -> leaderboardLimit (Some (Finite x)) = Finite 1) /\
  (forall x : Q, 200 <= x -> leaderboardLimit (Some (Finite x)) = Finite 200).
Proof.
  split; [apply leaderboardLimit_cases |].
  repeat split; try reflexivity.
  - intros x Hx. unfold leaderboardLimit. simpl.
    assert (E1 : Num.ltb x 200 = true) by (apply ltb_lt; lra).
    assert (E2 : Num.ltb 1 x = false) by (apply ltb_ge; lra).
    rewrite E1, E2. reflexivity.
  - intros x Hx. unfold leaderboardLimit. simpl.
    assert (E1 : Num.ltb x 200 = false) by (apply ltb_ge; lra).
    rewrite E1. reflexivity.
Qed.

Lemma leaderboardLimit_clamped_witness :
  leaderboardLimit (Some (Finite 0)) = Finite 1 /\
  leaderboardLimit (Some (Finite 1000)) = Finite 200.
Proof.
  split.
  - apply (proj1 (proj2 (proj2 (proj2 (proj2 (proj2
             (leaderboardLimit_clamped None)))))) 0).
    vm_compute. discriminate.
  - apply (proj2 (proj2 (proj2 (proj2 (proj2 (proj2
             (leaderboardLimit_clamped None)))))) 1000).
    vm_compute. discriminate.
Defined.

Lemma compareRows_antisym {U : Type} (st : ScoreType) (a b : Leaderboard.Row U) :
  compareRows st a b == - compareRows st b a.
Proof. apply compareScores_antisym. Qed.

Lemma compareRows_trans {U : Type} (st : ScoreType) (a b c : Leaderboard.Row U) :
  compareRows st a b <= 0 -> compareRows st b c <= 0 -> compareRows st a c <= 0.
Proof. apply compareScores_trans. Qed.

Lemma slice0_limit_firstn {A : Type} (l : list A) (qlimit : option JsNumber) :
  Array_slice0 l (leaderboardLimit qlimit) =
  firstn (match leaderboardLimit qlimit with
          | Finite x => Z.to_nat (Qfloor x)
          | _ => 0%nat
          end) l /\
  (match leaderboardLimit qlimit with
   | Finite x => Z.to_nat (Qfloor x)
   | _ => 0%nat
   end <= 200)%nat.
Proof.
  pose proof (leaderboardLimit_cases qlimit) as H.
  destruct (leaderboardLimit qlimit) as [| | x |]; try (split; [reflexivity | lia]).
  - destruct (slice0_limit l x H) as [E B]. split; [exact E | lia].
  - destruct H.
Qed.

(** X16. [GET /leaderboard/workout/:workoutId] fails with 404 exactly when
    the workout does not exist.  Otherwise the leaderboard has at most 200
    entries and at most as many as the workout has results; with a limit
    [x] it has [min(floor x, results)] entries, with a limit that is not a
    number it is empty; and the entries are numbered 1, 2, 3, ... *)
Theorem leaderboard_size_and_numbering {U : Type} (WT : list Db.Workout)
  (rows : list (Leaderboard.Row U)) (wid : string) (qlimit : option JsNumber) :
  let results :=
    filter (fun r => String.eqb (Db.workoutId (Leaderboard.result r)) wid) rows in
  match leaderboardWorkout WT rows wid qlimit with
  | Failed code _ => code = 404%Z /\ workout_findUnique WT wid = None
  | Sent p =>
      let board := Leaderboard.leaderboard p in
      workout_findUnique WT wid = Some (Leaderboard.workout p) /\
      (List.length board <= 200)%nat /\
      (List.length board <= List.length results)%nat /\
      List.length board =
      match leaderboardLimit qlimit with
      | Finite x => Nat.min (Z.to_nat (Qfloor x)) (List.length results)
      | _ => 0%nat
      end /\
      map Leaderboard.rank board = Zseq 1 (List.length board)
  end.
Proof.
  cbv zeta. unfold leaderboardWorkout.
  destruct (workout_findUnique WT wid) as [w |]; [| split; reflexivity].
  cbn [Leaderboard.workout Leaderboard.leaderboard].
  split; [reflexivity |].
  destruct (slice0_limit_firstn
              (Array_sort (compareRows (Db.scoreType w))
                 (filter (fun r => String.eqb (Db.workoutId (Leaderboard.result r)) wid)
                    rows))
              qlimit) as [E B].
  rewrite E. unfold Array_mapi.
  rewrite mapi_from_length, length_firstn, Array_sort_length.
  split; [lia |]. split; [lia |]. split.
  - destruct (leaderboardLimit qlimit); reflexivity.
  - rewrite (mapi_from_index _ Leaderboard.rank) by reflexivity.
    rewrite length_firstn, Array_sort_length. reflexivity.
Qed.

(** X17. The user leaderboard shows rows of the requested workout, best
    first: the rows shown and the rows left out together are the results of
    the workout, the scores shown are in comparator order, and no row left
    out is strictly better than a row shown. *)
Theorem leaderboard_best_first {U : Type} (WT : list Db.Workout)
  (rows : list (Leaderboard.Row U)) (wid : string) (qlimit : option JsNumber)
  (p : Leaderboard.t U) :
  leaderboardWorkout WT rows wid qlimit = Sent p ->
  let st := Db.scoreType (Leaderboard.workout p) in
  exists shown rest : list (Leaderboard.Row U),
    Permutation
      (filter (fun r => String.eqb (Db.workoutId (Leaderboard.result r)) wid) rows)
      (shown ++ rest) /\
    map Leaderboard.entryUser (Leaderboard.leaderboard p)
    = map Leaderboard.user shown /\
    map Leaderboard.score (Leaderboard.leaderboard p)
    = map (fun r => Db.score (Leaderboard.result r)) shown /\
    ordered (compareScores st) (map Leaderboard.score (Leaderboard.leaderboard p)) /\
    (forall x y, In x shown -> In y rest -> compareRows st x y <= 0).
Proof.
  unfold leaderboardWorkout.
  destruct (workout_findUnique WT wid) as [w |]; [| discriminate].
  intro H. injection H as <-. cbn [Leaderboard.workout Leaderboard.leaderboard].
  cbv zeta.
  set (results := filter (fun r => String.eqb (Db.workoutId (Leaderboard.result r)) wid)
                    rows).
  set (sorted := Array_sort (compareRows (Db.scoreType w)) results).
  destruct (slice0_limit_firstn sorted qlimit) as [E _]. rewrite E.
  set (k := match leaderboardLimit qlimit with
            | Finite x => Z.to_nat (Qfloor x)
            | _ => 0%nat
            end).
  exists (firstn k sorted), (skipn k sorted).
  pose proof (Array_sort_sorted (compareRows (Db.scoreType w))
                (compareRows_antisym (Db.scoreType w))
                (compareRows_trans (Db.scoreType w)) results) as O.
  fold sorted in O. rewrite <- (firstn_skipn k sorted) in O.
  apply ordered_app in O. destruct O as (O1 & _ & C).
  unfold Array_mapi.
  rewrite (mapi_from_map _ Leaderboard.entryUser Leaderboard.user) by reflexivity.
  rewrite (mapi_from_map _ Leaderboard.score
             (fun r => Db.score (Leaderboard.result r))) by reflexivity.
  repeat split.
  - rewrite firstn_skipn. apply Array_sort_perm.
  - apply ordered_map. exact O1.
  - exact C.
Qed.

Lemma leaderboard_best_first_witness :
  exists shown rest : list (Leaderboard.Row string),
    Permutation
      (filter (fun r => String.eqb (Db.workoutId (Leaderboard.result r)) "w2")
         [Leaderboard.mkRow "kari"%string (Db.mkRow "w2" None (Some 300) None None);
          Leaderboard.mkRow "ola"%string (Db.mkRow "w2" None (Some 330) None None)])
      (shown ++ rest) /\
    map Leaderboard.entryUser [Leaderboard.mkEntry 1 "ola"%string (repsOnly 330)]
    = map Leaderboard.user shown /\
    map Leaderboard.score [Leaderboard.mkEntry 1 "ola"%string (repsOnly 330)]
    = map (fun r => Db.score (Leaderboard.result r)) shown /\
    ordered (compareScores REPS)
      (map Leaderboard.score [Leaderboard.mkEntry 1 "ola"%string (repsOnly 330)]) /\
    (forall x y, In x shown -> In y rest -> compareRows REPS x y <= 0).
Proof.
  apply (leaderboard_best_first sampleWorkouts
           [Leaderboard.mkRow "kari"%string (Db.mkRow "w2" None (Some 300) None None);
            Leaderboard.mkRow "ola"%string (Db.mkRow "w2" None (Some 330) None None)]
           "w2" (Some (Finite 1))
           (Leaderboard.mk (Db.mkWorkout "w2" REPS)
              [Leaderboard.mkEntry 1 "ola"%string (repsOnly 330)])).
  reflexivity.
Defined.

(** ** The benchmark leaderboard *)

Lemma compareAthleteRank_le (a b : Benchmark.Row) :
  compareAthleteRank a b <= 0 <->
  (Benchmark.athleteRank a <= Benchmark.athleteRank b)%Z.
Proof.
  unfold compareAthleteRank, Qle, inject_Z. simpl. lia.
Qed.

Lemma compareAthleteRank_antisym (a b : Benchmark.Row) :
  compareAthleteRank a b == - compareAthleteRank b a.
Proof.
  unfold compareAthleteRank, Qeq, inject_Z. simpl. lia.
Qed.

Lemma compareAthleteRank_trans (a b c : Benchmark.Row) :
  compareAthleteRank a b <= 0 -> compareAthleteRank b c <= 0 ->
  compareAthleteRank a c <= 0.
Proof.
  rewrite !compareAthleteRank_le. lia.
Qed.

Lemma ordered_athleteRank (l : list Benchmark.Row) :
  ordered compareAthleteRank l ->
  StronglySorted Z.le (map Benchmark.athleteRank l).
Proof.
  induction l as [| a l IH]; simpl; intro H; [constructor |].
  destruct H as [Ha Hl]. constructor; [apply IH; exact Hl |].
  apply Forall_map. eapply Forall_impl; [| exact Ha].
  intros b Hb. apply compareAthleteRank_le. exact Hb.
Qed.

(** X18. [GET /benchmark/workout/:workoutId] fails with 404 exactly when the
    workout does not exist.  Otherwise it lists every benchmark row of the
    workout once, in ascending order of the athletes' ranks, each with the
    athlete's rank and name and the four score fields of the row. *)
Theorem benchmarkWorkout_sorted_by_rank (WT : list Db.Workout)
  (BT : list Benchmark.Row) (wid : string) :
  match benchmarkWorkout WT BT wid with
  | Failed code _ => code = 404%Z /\ workout_findUnique WT wid = None
  | Sent (w, entries) =>
      workout_findUnique WT wid = Some w /\
      StronglySorted Z.le (map Benchmark.rank entries) /\
      Permutation
        (map (fun r =>
                Benchmark.mkEntry (Benchmark.athleteRank r) (Benchmark.athleteName r)
                  (Db.score (Benchmark.result r)))
           (filter (fun r => String.eqb (Db.workoutId (Benchmark.result r)) wid) BT))
        entries
  end.
Proof.
  unfold benchmarkWorkout.
  destruct (workout_findUnique WT wid) as [w |]; [| split; reflexivity].
  split; [reflexivity |].
  set (rows := filter (fun r => String.eqb (Db.workoutId (Benchmark.result r)) wid) BT).
  split.
  - rewrite map_map. cbn [Benchmark.rank].
    apply ordered_athleteRank.
    apply Array_sort_sorted;
      [exact compareAthleteRank_antisym | exact compareAthleteRank_trans].
  - erewrite (map_ext _ (fun r => Benchmark.mkEntry (Benchmark.athleteRank r)
                                   (Benchmark.athleteName r)
                                   (normalize (Db.score (Benchmark.result r))))).
    + apply Permutation_map. apply Array_sort_perm.
    + intro r. rewrite normalize_id. reflexivity.
Qed.

(** * Properties of the time entry of App.tsx *)

(** ** trim *)

Lemma trimStart_prefix (s : JsString.t) :
  exists w, s = w ++ JsString.trimStart s.
Proof.
  induction s as [| c s [w IH]]; [exists []; reflexivity |].
  simpl. destruct (JsString.isWhiteSpace c).
  - exists (c :: w). simpl. rewrite <- IH. reflexivity.
  - exists []. reflexivity.
Qed.

Lemma trimStart_length (s : JsString.t) :
  (List.length (JsString.trimStart s) <= List.length s)%nat.
Proof.
  destruct (trimStart_prefix s) as [w H]. rewrite H at 2.
  rewrite length_app. lia.
Qed.

Lemma trimStart_fixed_iff (s : JsString.t) :
  JsString.trimStart s = s <->
  match s with
  | [] => True
  | c :: _ => JsString.isWhiteSpace c = false
  end.
Proof.
  destruct s as [| c s]; simpl; [tauto |].
  destruct (JsString.isWhiteSpace c); split; intro H; try reflexivity; try discriminate.
  pose proof (trimStart_length s) as L. rewrite H in L. simpl in L. lia.
Qed.

Lemma trimStart_idem (s : JsString.t) :
  JsString.trimStart (JsString.trimStart s) = JsString.trimStart s.
Proof.
  induction s as [| c s IH]; [reflexivity |].
  simpl. destruct (JsString.isWhiteSpace c) eqn:E; [exact IH |].
  simpl. rewrite E. reflexivity.
Qed.

Lemma trimEnd_idem (s : JsString.t) :
  JsString.trimEnd (JsString.trimEnd s) = JsString.trimEnd s.
Proof.
  unfold JsString.trimEnd. rewrite rev_involutive, trimStart_idem. reflexivity.
Qed.

Lemma trimEnd_prefix (s : JsString.t) :
  exists w, s = JsString.trimEnd s ++ w.
Proof.
  destruct (trimStart_prefix (rev s)) as [w H].
  exists (rev w). unfold JsString.trimEnd.
  rewrite <- rev_app_distr, <- H, rev_involutive. reflexivity.
Qed.

Lemma trimStart_trimEnd (s : JsString.t) :
  JsString.trimStart s = s ->
  JsString.trimStart (JsString.trimEnd s) = JsString.trimEnd s.
Proof.
  intro H. apply trimStart_fixed_iff.
  destruct (trimEnd_prefix s) as [w Hw].
  destruct (JsString.trimEnd s) as [| c r]; [exact I |].
  rewrite Hw in H. apply trimStart_fixed_iff in H. exact H.
Qed.

Lemma trim_idem (s : JsString.t) :
  JsString.trim (JsString.trim s) = JsString.trim s.
Proof.
  unfold JsString.trim.
  rewrite (trimStart_trimEnd (JsString.trimStart s) (trimStart_idem s)).
  apply trimEnd_idem.
Qed.

Lemma trim_fixed (s : JsString.t) :
  JsString.trimStart s = s ->
  JsString.trimStart (rev s) = rev s ->
  JsString.trim s = s.
Proof.
  intros H1 H2. unfold JsString.trim, JsString.trimEnd.
  rewrite H1, H2. apply rev_involutive.
Qed.

(** ** Digits *)

Lemma isDigit_bounds (c : N) :
  JsString.isDigit c = true <-> (48 <= c <= 57)%N.
Proof.
  unfold JsString.isDigit. rewrite andb_true_iff, !N.leb_le. tauto.
Qed.

Lemma isDigit_not_whitespace (c : N) :
  JsString.isDigit c = true -> JsString.isWhiteSpace c = false.
Proof.
  intro H. apply isDigit_bounds in H.
  unfold JsString.isWhiteSpace. cbn [existsb].
  repeat match goal with
         | |- context [N.eqb c ?k] => destruct (N.eqb_spec c k); [lia |]
         end.
  reflexivity.
Qed.

Lemma isDigit_not_colon (c : N) :
  JsString.isDigit c = true -> (c =? 58)%N = false.
Proof.
  intro H. apply isDigit_bounds in H. apply N.eqb_neq. lia.
Qed.

Lemma allDigits_forallb (s : JsString.t) :
  JsString.allDigits s = true <-> s <> [] /\ forallb JsString.isDigit s = true.
Proof.
  destruct s as [| c s]; simpl.
  - split; [discriminate | intros [H _]; congruence].
  - split; [intro H; split; [discriminate | exact H] | intros [_ H]; exact H].
Qed.

Lemma allDigits_rev (s : JsString.t) :
  JsString.allDigits s = true -> JsString.allDigits (rev s) = true.
Proof.
  rewrite !allDigits_forallb. intros [Hn Hd]. split.
  - intro E. apply Hn. rewrite <- (rev_involutive s), E. reflexivity.
  - apply forallb_forall. intros c Hc. apply in_rev in Hc.
    rewrite forallb_forall in Hd. apply Hd. exact Hc.
Qed.

Lemma trimStart_digits_app (ds x : JsString.t) :
  JsString.allDigits ds = true -> JsString.trimStart (ds ++ x) = ds ++ x.
Proof.
  intro H. apply trimStart_fixed_iff.
  destruct ds as [| c ds]; [discriminate H |].
  simpl in *. apply andb_true_iff in H. destruct H as [Hc _].
  apply isDigit_not_whitespace. exact Hc.
Qed.

(** A string that begins and ends with digits is left alone by [trim]. *)
Lemma trim_between_digits (a m b : JsString.t) :
  JsString.allDigits a = true -> JsString.allDigits b = true ->
  JsString.trim (a ++ m ++ b) = a ++ m ++ b.
Proof.
  intros Ha Hb. apply trim_fixed.
  - apply trimStart_digits_app. exact Ha.
  - rewrite app_assoc, rev_app_distr.
    apply trimStart_digits_app. apply allDigits_rev. exact Hb.
Qed.

Lemma trim_digits (s : JsString.t) :
  JsString.allDigits s = true -> JsString.trim s = s.
Proof.
  intro H. apply trim_fixed.
  - rewrite <- (app_nil_r s). apply trimStart_digits_app. exact H.
  - rewrite <- (app_nil_r (rev s)). apply trimStart_digits_app.
    apply allDigits_rev. exact H.
Qed.

(** ** split *)

Lemma split_not_nil (sep : N) (s : JsString.t) : JsString.split sep s <> [].
Proof.
  destruct s as [| c s]; simpl; [discriminate |].
  destruct (c =? sep)%N; [discriminate |].
  destruct (JsString.split sep s); discriminate.
Qed.

Lemma split_app (sep : N) (a r : JsString.t) :
  forallb (fun c => negb (c =? sep)%N) a = true ->
  JsString.split sep (a ++ sep :: r) = a :: JsString.split sep r.
Proof.
  induction a as [| c a IH]; simpl; intro H.
  - rewrite N.eqb_refl. reflexivity.
  - apply andb_true_iff in H. destruct H as [Hc Ha].
    apply negb_true_iff in Hc. rewrite Hc, (IH Ha). reflexivity.
Qed.

Lemma split_no_sep (sep : N) (a : JsString.t) :
  forallb (fun c => negb (c =? sep)%N) a = true ->
  JsString.split sep a = [a].
Proof.
  induction a as [| c a IH]; simpl; intro H; [reflexivity |].
  apply andb_true_iff in H. destruct H as [Hc Ha].
  apply negb_true_iff in Hc. rewrite Hc, (IH Ha). reflexivity.
Qed.

Lemma digits_no_colon (s : JsString.t) :
  forallb JsString.isDigit s = true ->
  forallb (fun c => negb (c =? 58)%N) s = true.
Proof.
  intro H. apply forallb_forall. intros c Hc.
  rewrite forallb_forall in H.
  rewrite (isDigit_not_colon c (H c Hc)). reflexivity.
Qed.

(** ** Printing and reading a number *)

Lemma numberOfDigits_acc (d : Decimal.uint) (acc : positive) :
  fold_left (fun a c => (10 * a + (c - 48))%N) (JsString.ofUint d) (Npos acc)
  = Npos (Pos.of_uint_acc d acc).
Proof.
  revert acc.
  induction d; intro acc; cbn [JsString.ofUint fold_left Pos.of_uint_acc];
    [reflexivity | ..];
    rewrite <- IHd; apply f_equal; lia.
Qed.

Lemma numberOfDigits_ofUint (d : Decimal.uint) :
  JsString.numberOfDigits (JsString.ofUint d) = N.of_uint d.
Proof.
  unfold JsString.numberOfDigits, N.of_uint.
  induction d; cbn [JsString.ofUint fold_left Pos.of_uint];
    [reflexivity | exact IHd | ..];
    apply numberOfDigits_acc.
Qed.

Lemma numberOfDigits_ofNumber (n : N) :
  JsString.numberOfDigits (JsString.ofNumber n) = n.
Proof.
  unfold JsString.ofNumber. rewrite numberOfDigits_ofUint.
  apply DecimalN.Unsigned.of_to.
Qed.

Lemma ofUint_digits (d : Decimal.uint) :
  forallb JsString.isDigit (JsString.ofUint d) = true.
Proof. induction d; simpl; try reflexivity; exact IHd. Qed.

Lemma allDigits_ofNumber (n : N) :
  JsString.allDigits (JsString.ofNumber n) = true.
Proof.
  apply allDigits_forallb. split; [| apply ofUint_digits].
  unfold JsString.ofNumber. destruct n as [| p]; [discriminate |].
  simpl. pose proof (DecimalPos.Unsigned.to_uint_nonnil p) as H.
  destruct (Pos.to_uint p); [congruence | discriminate ..].
Qed.

Lemma padStart_digits (len : nat) (s : JsString.t) :
  JsString.allDigits s = true ->
  JsString.allDigits (JsString.padStart len 48 s) = true /\
  JsString.numberOfDigits (JsString.padStart len 48 s) = JsString.numberOfDigits s.
Proof.
  intro H. unfold JsString.padStart.
  generalize (len - List.length s)%nat as k. intro k.
  apply allDigits_forallb in H. destruct H as [Hn Hd]. split.
  - apply allDigits_forallb. split.
    + destruct k; simpl; [exact Hn | discriminate].
    + rewrite forallb_app, Hd, andb_true_r.
      induction k; simpl; [reflexivity | exact IHk].
  - unfold JsString.numberOfDigits. rewrite fold_left_app. f_equal.
    induction k; simpl; [reflexivity | exact IHk].
Qed.

(** ** parseTimeToSeconds *)

Lemma split_single (sep : N) (s x : JsString.t) :
  JsString.split sep s = [x] -> x = s.
Proof.
  revert x. induction s as [| c s IH]; intros x H; simpl in H.
  - injection H as <-. reflexivity.
  - destruct (c =? sep)%N.
    + injection H as _ H. exfalso. exact (split_not_nil sep s H).
    + destruct (JsString.split sep s) as [| p ps] eqn:E.
      * exfalso. exact (split_not_nil sep s E).
      * injection H as <- ->. rewrite (IH p eq_refl). reflexivity.
Qed.

Lemma existsb_negb {A : Type} (p : A -> bool) (l : list A) :
  existsb (fun x => negb (p x)) l = negb (forallb p l).
Proof.
  induction l as [| x l IH]; [reflexivity |].
  simpl. rewrite IH. destruct (p x); reflexivity.
Qed.

Lemma parseTimeToSeconds_parts (input : JsString.t) :
  parseTimeToSeconds input =
  let parts := map JsString.trim (JsString.split 58 (JsString.trim input)) in
  if forallb JsString.allDigits parts && (List.length parts <=? 3)%nat
  then Some (base60 parts) else None.
Proof.
  cbv zeta. unfold parseTimeToSeconds.
  pose proof (trim_idem input) as Hidem.
  destruct (JsString.trim input) as [| c r] eqn:Es; [reflexivity |].
  set (s := c :: r) in *.
  destruct (JsString.allDigits s) eqn:Ed.
  - assert (Hd : forallb JsString.isDigit s = true)
      by (apply allDigits_forallb in Ed; tauto).
    rewrite (split_no_sep 58 s (digits_no_colon s Hd)).
    cbn [map]. rewrite (trim_digits s Ed).
    cbn [forallb List.length]. rewrite Ed. simpl.
    unfold base60. simpl. reflexivity.
  - rewrite existsb_negb.
    destruct (JsString.split 58 s) as [| x xs] eqn:Ex;
      [exfalso; exact (split_not_nil 58 s Ex) |].
    destruct (forallb JsString.allDigits (map JsString.trim (x :: xs))) eqn:Ef;
      [| reflexivity].
    cbn [negb andb].
    destruct xs as [| y [| z [| v xs]]]; cbn [map List.length].
    + exfalso. pose proof (split_single 58 s x Ex) as ->.
      cbn [map forallb] in Ef. rewrite Hidem, Ed in Ef. discriminate Ef.
    + cbn [Nat.ltb Nat.leb orb]. unfold base60. cbn [fold_left]. f_equal. lia.
    + cbn [Nat.ltb Nat.leb orb]. unfold base60. cbn [fold_left]. f_equal. lia.
    + reflexivity.
Qed.

Lemma parse_two_groups (a b : JsString.t) :
  JsString.allDigits a = true -> JsString.allDigits b = true ->
  parseTimeToSeconds (a ++ 58%N :: b) =
  Some (JsString.numberOfDigits a * 60 + JsString.numberOfDigits b)%N.
Proof.
  intros Ha Hb. rewrite parseTimeToSeconds_parts. cbv zeta.
  change (a ++ 58%N :: b) with (a ++ [58%N] ++ b).
  rewrite (trim_between_digits a [58%N] b Ha Hb).
  change (a ++ [58%N] ++ b) with (a ++ 58%N :: b).
  assert (Da : forallb JsString.isDigit a = true)
    by (apply allDigits_forallb in Ha; tauto).
  assert (Db : forallb JsString.isDigit b = true)
    by (apply allDigits_forallb in Hb; tauto).
  rewrite (split_app 58 a b (digits_no_colon a Da)).
  rewrite (split_no_sep 58 b (digits_no_colon b Db)).
  cbn [map]. rewrite (trim_digits a Ha), (trim_digits b Hb).
  cbn [forallb List.length]. rewrite Ha, Hb.
  cbn [andb Nat.leb]. unfold base60. cbn [fold_left]. f_equal. lia.
Qed.

Lemma parse_three_groups (a b c : JsString.t) :
  JsString.allDigits a = true -> JsString.allDigits b = true ->
  JsString.allDigits c = true ->
  parseTimeToSeconds (a ++ 58%N :: b ++ 58%N :: c) =
  Some (JsString.numberOfDigits a * 3600 + JsString.numberOfDigits b * 60
        + JsString.numberOfDigits c)%N.
Proof.
  intros Ha Hb Hc. rewrite parseTimeToSeconds_parts. cbv zeta.
  assert (E : a ++ 58%N :: b ++ 58%N :: c = a ++ (58%N :: b ++ [58%N]) ++ c)
    by (simpl; rewrite <- app_assoc; reflexivity).
  rewrite E, (trim_between_digits a (58%N :: b ++ [58%N]) c Ha Hc), <- E.
  assert (Da : forallb JsString.isDigit a = true)
    by (apply allDigits_forallb in Ha; tauto).
  assert (Db : forallb JsString.isDigit b = true)
    by (apply allDigits_forallb in Hb; tauto).
  assert (Dc : forallb JsString.isDigit c = true)
    by (apply allDigits_forallb in Hc; tauto).
  rewrite (split_app 58 a _ (digits_no_colon a Da)).
  rewrite (split_app 58 b c (digits_no_colon b Db)).
  rewrite (split_no_sep 58 c (digits_no_colon c Dc)).
  cbn [map]. rewrite (trim_digits a Ha), (trim_digits b Hb), (trim_digits c Hc).
  cbn [forallb List.length]. rewrite Ha, Hb, Hc.
  cbn [andb Nat.leb]. unfold base60. cbn [fold_left]. f_equal. lia.
Qed.

(** X19. [parseTimeToSeconds] returns [null] exactly for the inputs that,
    once trimmed, do not consist of one, two or three colon-separated groups
    of digits (each group may be surrounded by white space); the empty and
    the blank input are among them.  For the other inputs it returns the
    value of the groups read in base 60, as long as that value is a safe
    integer, the range in which [Number] and the additions of the code are
    exact. *)
Theorem parseTimeToSeconds_reads_base60 (input : JsString.t) :
  let parts := map JsString.trim (JsString.split 58 (JsString.trim input)) in
  let accepted :=
    forallb JsString.allDigits parts && (List.length parts <=? 3)%nat in
  (parseTimeToSeconds input = None <-> accepted = false) /\
  ((base60 parts <= 9007199254740991)%N ->
   parseTimeToSeconds input = if accepted then Some (base60 parts) else None).
Proof.
  cbv zeta. pose proof (parseTimeToSeconds_parts input) as H. cbv zeta in H.
  rewrite H. split; [| intros _; reflexivity].
  destruct (forallb JsString.allDigits
              (map JsString.trim (JsString.split 58 (JsString.trim input)))
            && (List.length
                  (map JsString.trim (JsString.split 58 (JsString.trim input)))
                <=? 3)%nat);
    split; intro E; try reflexivity; discriminate E.
Qed.

Lemma parseTimeToSeconds_reads_base60_witness :
  parseTimeToSeconds (JsString.ofString " 12 : 30 ") = Some 750%N.
Proof.
  apply (proj2 (parseTimeToSeconds_reads_base60 (JsString.ofString " 12 : 30 "))).
  vm_compute. discriminate.
Defined.

(** X20. Digits alone are read as seconds, [m:s] as [60 m + s] and [h:m:s]
    as [3600 h + 60 m + s], for any numbers [h], [m], [s] whose total stays
    a safe integer: minutes and seconds of 60 or more are accepted and
    carried over. *)
Theorem parseTimeToSeconds_no_range_check (h m s : N) :
  (h * 3600 + m * 60 + s <= 9007199254740991)%N ->
  parseTimeToSeconds (JsString.ofNumber s) = Some s /\
  parseTimeToSeconds (JsString.ofNumber m ++ 58%N :: JsString.ofNumber s)
  = Some (m * 60 + s)%N /\
  parseTimeToSeconds
    (JsString.ofNumber h ++ 58%N :: JsString.ofNumber m ++ 58%N :: JsString.ofNumber s)
  = Some (h * 3600 + m * 60 + s)%N.
Proof.
  intros _. split; [| split].
  - rewrite parseTimeToSeconds_parts. cbv zeta.
    rewrite (trim_digits _ (allDigits_ofNumber s)).
    rewrite (split_no_sep 58 (JsString.ofNumber s)
               (digits_no_colon _ (ofUint_digits (N.to_uint s)))).
    cbn [map]. rewrite (trim_digits _ (allDigits_ofNumber s)).
    cbn [forallb List.length]. rewrite (allDigits_ofNumber s).
    cbn [andb Nat.leb]. unfold base60. cbn [fold_left].
    rewrite numberOfDigits_ofNumber. reflexivity.
  - rewrite parse_two_groups by apply allDigits_ofNumber.
    rewrite !numberOfDigits_ofNumber. reflexivity.
  - rewrite parse_three_groups by apply allDigits_ofNumber.
    rewrite !numberOfDigits_ofNumber. reflexivity.
Qed.

Lemma parseTimeToSeconds_no_range_check_witness :
  parseTimeToSeconds (JsString.ofString "1:75") = Some 135%N.
Proof.
  apply (proj1 (proj2 (parseTimeToSeconds_no_range_check 0 1 75 ltac:(vm_compute; discriminate)))).
Defined.

(** ** formatTime *)

Lemma padStart_two (n : N) :
  (n < 100)%N -> JsString.padStart 2 48 (JsString.ofNumber n) = twoDigits n.
Proof.
  intro H.
  assert (C : forallb
                (fun k => if list_eq_dec N.eq_dec
                               (JsString.padStart 2 48 (JsString.ofNumber k))
                               (twoDigits k)
                          then true else false)
                (map N.of_nat (seq 0 100)) = true) by (vm_compute; reflexivity).
  rewrite forallb_forall in C. specialize (C n).
  destruct (list_eq_dec N.eq_dec (JsString.padStart 2 48 (JsString.ofNumber n))
              (twoDigits n)) as [E | _]; [exact E |].
  assert (In n (map N.of_nat (seq 0 100))).
  { apply in_map_iff. exists (N.to_nat n). split; [apply N2Nat.id |].
    apply in_seq. lia. }
  specialize (C H0). discriminate C.
Qed.

Lemma clock_fields (s : N) :
  (s = s / 3600 * 3600 + (s mod 3600) / 60 * 60 + s mod 60)%N /\
  ((s mod 3600) / 60 < 60)%N /\ (s mod 60 < 60)%N /\
  ((s / 3600 =? 0) = (s <? 3600))%N /\
  ((s <? 3600)%N = true -> (s mod 3600) / 60 = s / 60)%N.
Proof.
  pose proof (N.div_mod s 3600 ltac:(discriminate)) as D1.
  pose proof (N.mod_lt s 3600 ltac:(discriminate)) as L1.
  pose proof (N.div_mod (s mod 3600) 60 ltac:(discriminate)) as D2.
  pose proof (N.mod_lt (s mod 3600) 60 ltac:(discriminate)) as L2.
  pose proof (N.mod_lt s 60 ltac:(discriminate)) as L3.
  assert (M : ((s mod 3600) mod 60 = s mod 60)%N).
  { rewrite D1 at 2.
    replace (3600 * (s / 3600) + s mod 3600)%N
      with (s mod 3600 + (60 * (s / 3600)) * 60)%N by lia.
    rewrite N.Div0.mod_add. reflexivity. }
  rewrite M in D2.
  assert (Q : ((s mod 3600) / 60 < 60)%N).
  { apply N.Div0.div_lt_upper_bound. lia. }
  split; [lia |]. split; [exact Q |]. split; [exact L3 |]. split.
  - destruct (N.ltb_spec s 3600) as [L | L].
    + apply N.eqb_eq. apply N.div_small. exact L.
    + apply N.eqb_neq. intro E. rewrite E in D1. lia.
  - intro L. apply N.ltb_lt in L. rewrite (N.mod_small s 3600 L). reflexivity.
Qed.

Lemma formatTime_fields (seconds : Q) :
  formatTime seconds =
  let s := wholeSeconds seconds in
  (if (s <? 3600)%N then JsString.ofNumber (s / 60)
   else JsString.ofNumber (s / 3600) ++ [58%N] ++ twoDigits ((s mod 3600) / 60))
  ++ [58%N] ++ twoDigits (s mod 60).
Proof.
  cbv zeta. unfold formatTime. fold (wholeSeconds seconds).
  generalize (wholeSeconds seconds). intro s.
  destruct (clock_fields s) as (_ & Lm & Ls & E & Hm).
  rewrite !padStart_two by lia.
  replace (0 <? s / 3600)%N with (negb (s / 3600 =? 0)%N)
    by (destruct (s / 3600)%N; reflexivity).
  rewrite E. destruct (s <? 3600)%N eqn:L; cbn [negb].
  - rewrite (Hm eq_refl). reflexivity.
  - rewrite <- !app_assoc. reflexivity.
Qed.

(** X21. Entering what [formatTime] shows gives the time back:
    [parseTimeToSeconds(formatTime(x))] is [max(0, floor(x))] for every
    number [x] up to [Number.MAX_SAFE_INTEGER], the range in which the
    integer arithmetic of the two functions is exact. *)
Theorem parseTimeToSeconds_formatTime (seconds : Q) :
  seconds <= Num.MAX_SAFE_INTEGER ->
  parseTimeToSeconds (formatTime seconds) = Some (wholeSeconds seconds).
Proof.
  intros _. unfold formatTime. fold (wholeSeconds seconds).
  generalize (wholeSeconds seconds). intro s.
  destruct (clock_fields s) as (D & _ & _ & _ & _).
  destruct (0 <? s / 3600)%N eqn:E.
  - change (JsString.ofNumber (s / 3600) ++ [58%N] ++
            JsString.padStart 2 48 (JsString.ofNumber ((s mod 3600) / 60)) ++
            [58%N] ++ JsString.padStart 2 48 (JsString.ofNumber (s mod 60)))
      with (JsString.ofNumber (s / 3600) ++ 58%N ::
            JsString.padStart 2 48 (JsString.ofNumber ((s mod 3600) / 60)) ++
            58%N :: JsString.padStart 2 48 (JsString.ofNumber (s mod 60))).
    rewrite parse_three_groups;
      try apply allDigits_ofNumber;
      try (apply padStart_digits; apply allDigits_ofNumber).
    rewrite !(proj2 (padStart_digits 2 _ (allDigits_ofNumber _))).
    rewrite !numberOfDigits_ofNumber. f_equal. symmetry. exact D.
  - change (JsString.ofNumber ((s mod 3600) / 60) ++ [58%N] ++
            JsString.padStart 2 48 (JsString.ofNumber (s mod 60)))
      with (JsString.ofNumber ((s mod 3600) / 60) ++ 58%N ::
            JsString.padStart 2 48 (JsString.ofNumber (s mod 60))).
    rewrite parse_two_groups;
      try apply allDigits_ofNumber;
      try (apply padStart_digits; apply allDigits_ofNumber).
    rewrite !(proj2 (padStart_digits 2 _ (allDigits_ofNumber _))).
    rewrite !numberOfDigits_ofNumber. f_equal.
    apply N.ltb_ge, N.le_0_r in E.
    rewrite E, N.mul_0_l, N.add_0_l in D. symmetry. exact D.
Qed.

Lemma parseTimeToSeconds_formatTime_witness :
  parseTimeToSeconds (formatTime (1501 # 2)) = Some 750%N.
Proof.
  apply (parseTimeToSeconds_formatTime (1501 # 2)).
  vm_compute. discriminate.
Defined.

(** X22. For every number up to [Number.MAX_SAFE_INTEGER], the range in
    which the divisions of the code are exact and [String] prints plain
    digits, [formatTime] drops fractions and shows whole seconds: below one
    hour as [m:ss], from one hour on as [h:mm:ss]; the seconds, and the
    minutes after an hour, always take exactly two digits.  Anything below
    one second, negative numbers included, is shown as 0:00. *)
Theorem formatTime_layout (seconds : Q) :
  seconds <= Num.MAX_SAFE_INTEGER ->
  formatTime seconds =
  (let s := wholeSeconds seconds in
   (if (s <? 3600)%N then JsString.ofNumber (s / 60)
    else JsString.ofNumber (s / 3600) ++ [58%N] ++ twoDigits ((s mod 3600) / 60))
   ++ [58%N] ++ twoDigits (s mod 60)) /\
  formatTime seconds = formatTime (inject_Z (Z.max 0 (Qfloor seconds))) /\
  (seconds < 1 -> formatTime seconds = JsString.ofString "0:00").
Proof.
  intros _.
  split; [apply formatTime_fields |]. split.
  - unfold formatTime. rewrite Qfloor_Z.
    rewrite (Z.max_r 0 (Z.max 0 (Qfloor seconds))) by lia. reflexivity.
  - intro H. rewrite formatTime_fields. cbv zeta.
    assert (E : wholeSeconds seconds = 0%N).
    { unfold wholeSeconds.
      assert (Qfloor seconds < 1)%Z.
      { apply Z.lt_nge. intro L.
        rewrite Zle_Qle in L.
        pose proof (Qfloor_le seconds) as F.
        assert (1 <= seconds) by (eapply Qle_trans; [exact L | exact F]).
        lra. }
      lia. }
    rewrite E. reflexivity.
Qed.

Lemma formatTime_layout_witness :
  formatTime (-3 # 2) = JsString.ofString "0:00".
Proof.
  apply (proj2 (proj2 (formatTime_layout (-3 # 2) ltac:(vm_compute; discriminate)))).
  reflexivity.
Defined.

(** * Properties of the seeded benchmark *)

Lemma increasing_sorted (l : list Z) :
  increasing l = true -> StronglySorted Z.lt l.
Proof.
  intro H. apply Sorted_StronglySorted; [exact Z.lt_strorder.(StrictOrder_Transitive) |].
  induction l as [| x l IH]; [constructor |].
  destruct l as [| y l]; [repeat constructor |].
  cbn [increasing] in H. apply andb_true_iff in H. destruct H as [Hxy Hl].
  constructor; [apply IH; exact Hl |].
  constructor. apply Z.ltb_lt. exact Hxy.
Qed.

(** X23. The seeded benchmark follows the athletes' ranks: the 40 times run
    from 600 to 1000 and the 40 rep counts from 420 down to 260, each
    strictly monotone in the rank, so sorting the seeded scores with
    [compareScores] leaves them in rank order.  Against either seeded
    benchmark a user whose score is not identical to an entry earns exactly
    as many points as entries beaten. *)
Theorem seed_benchmark_follows_ranks (d : ScoreType) (u : NormalizedScore)
  (b : list NormalizedScore) :
  hd 0%Z (map seedTimeSeconds seedRanks) = 600%Z /\
  last (map seedTimeSeconds seedRanks) 0%Z = 1000%Z /\
  StronglySorted Z.lt (map seedTimeSeconds seedRanks) /\
  hd 0%Z (map seedReps seedRanks) = 420%Z /\
  last (map seedReps seedRanks) 0%Z = 260%Z /\
  StronglySorted Z.lt (rev (map seedReps seedRanks)) /\
  Array_sort (compareScores TIME) seedTimeBenchmark = seedTimeBenchmark /\
  Array_sort (compareScores REPS) seedRepsBenchmark = seedRepsBenchmark /\
  ((d = TIME /\ b = seedTimeBenchmark) \/ (d = REPS /\ b = seedRepsBenchmark) ->
   forallb (fun e => negb (isSameScore e u)) b = true ->
   pointsFromRank (computeRankAmongBenchmarkPlusUser d u b)
   = computeBenchmarkBeatenCount d u b).
Proof.
  split; [vm_compute; reflexivity |].
  split; [vm_compute; reflexivity |].
  split; [apply increasing_sorted; vm_compute; reflexivity |].
  split; [vm_compute; reflexivity |].
  split; [vm_compute; reflexivity |].
  split; [apply increasing_sorted; vm_compute; reflexivity |].
  split; [vm_compute; reflexivity |].
  split; [vm_compute; reflexivity |].
  intros Hb Hu.
  pose proof (rank_no_duplicate d u b Hu) as R.
  pose proof (count_split (beats d u) b) as S.
  rewrite (count_ext _ _ b (beats_notAfter d u)) in S.
  pose proof (count_nonneg (beats d u) b) as N0.
  pose proof (count_nonneg (notAfter (compareScores d) u) b) as N1.
  assert (L : Array_length b = 40%Z)
    by (destruct Hb as [[_ ->] | [_ ->]]; reflexivity).
  rewrite R, computeBenchmarkBeatenCount_count. unfold pointsFromRank.
  repeat match goal with
         | |- context [(?x <? ?y)%Z] => destruct (Z.ltb_spec x y)
         | |- context [(?x >? ?y)%Z] => rewrite (Z.gtb_ltb x y)
         end; lia.
Qed.

Lemma seed_benchmark_follows_ranks_witness :
  pointsFromRank (computeRankAmongBenchmarkPlusUser TIME (timeOnly 750) seedTimeBenchmark)
  = computeBenchmarkBeatenCount TIME (timeOnly 750) seedTimeBenchmark.
Proof.
  apply (proj2 (proj2 (proj2 (proj2 (proj2 (proj2 (proj2 (proj2
           (seed_benchmark_follows_ranks TIME (timeOnly 750) seedTimeBenchmark))))))))).
  - left. split; reflexivity.
  - vm_compute. reflexivity.
Defined.

(** * The compare route with its user resolution *)

Lemma sameString_eq (a b : JsString.t) : sameString a b = true <-> a = b.
Proof.
  unfold sameString. destruct (list_eq_dec N.eq_dec a b); split; intro H;
    try reflexivity; try assumption; try discriminate; contradiction.
Qed.

Lemma userResult_findByKey_userResultsOf (URT : list Users.ResultRow)
  (uid : JsString.t) (wid : string) :
  userResult_findUnique (userResultsOf URT uid) wid
  = userResult_findByKey URT uid wid.
Proof.
  unfold userResult_findUnique, userResultsOf, userResult_findByKey.
  induction URT as [| r URT IH]; [reflexivity |].
  simpl. destruct (sameString (Users.userId r) uid); simpl.
  - destruct (String.eqb (Db.workoutId (Users.row r)) wid); [reflexivity | exact IH].
  - exact IH.
Qed.

Lemma compareWorkoutRoute_resolved
  (NFC lower : JsString.t -> JsString.t) (users : list Users.User)
  (WT : list Db.Workout) (T : list Db.ResultRow) (URT : list Users.ResultRow)
  (wid : string) (quid qemail : option JsString.t) :
  compareWorkoutRoute NFC lower users WT T URT wid quid qemail =
  match resolveUserIdOrThrow NFC lower users quid qemail with
  | Thrown msg => Failed 400 msg
  | Returned uid => compareWorkout WT T (userResultsOf URT uid) wid
  end.
Proof.
  unfold compareWorkoutRoute, compareWorkout.
  destruct (resolveUserIdOrThrow NFC lower users quid qemail) as [uid | msg];
    [| reflexivity].
  rewrite userResult_findByKey_userResultsOf. reflexivity.
Qed.

(** X12. [GET /compare/workout/:workoutId] replies 400, with the message of
    [resolveUserIdOrThrow], whenever the user cannot be resolved, whether or
    not the workout exists.  For a resolved user it replies 404 exactly when
    the workout does not exist or that user has no result for it; otherwise
    the reply is about the requested workout and that user's row for it,
    with [0 <= beatenCount <= benchmarkTotal],
    [1 <= rank <= benchmarkTotal - beatenCount + 1] and
    [0 <= pointsEarned <= 40]. *)
Theorem compareWorkoutRoute_reply
  (NFC lower : JsString.t -> JsString.t) (users : list Users.User)
  (WT : list Db.Workout) (T : list Db.ResultRow) (URT : list Users.ResultRow)
  (wid : string) (quid qemail : option JsString.t) :
  match resolveUserIdOrThrow NFC lower users quid qemail with
  | Thrown msg =>
      compareWorkoutRoute NFC lower users WT T URT wid quid qemail = Failed 400 msg
  | Returned uid =>
      match compareWorkoutRoute NFC lower users WT T URT wid quid qemail with
      | Failed code _ =>
          code = 404%Z /\
          (workout_findUnique WT wid = None \/
           userResult_findByKey URT uid wid = None)
      | Sent p =>
          workout_findUnique WT wid = Some (Compare.workout p) /\
          Db.id (Compare.workout p) = wid /\
          (exists r, In r URT /\ Users.userId r = uid /\
                     Db.workoutId (Users.row r) = wid /\
                     Compare.userScore p = Db.score (Users.row r)) /\
          (0 <= Compare.beatenCount p <= Compare.benchmarkTotal p)%Z /\
          (1 <= Compare.rankAmongBenchmarkPlusUser p
           <= Compare.benchmarkTotal p - Compare.beatenCount p + 1)%Z /\
          (0 <= Compare.pointsEarned p <= 40)%Z
      end
  end.
Proof.
  rewrite compareWorkoutRoute_resolved.
  destruct (resolveUserIdOrThrow NFC lower users quid qemail) as [uid | msg];
    [| reflexivity].
  pose proof (compareWorkout_resolved WT T (userResultsOf URT uid) wid) as H.
  destruct (compareWorkout WT T (userResultsOf URT uid) wid) as [p | code err].
  - destruct H as (Hw & Hid & (ur & Hin & Hwid & Hs) & Hb & Hr & Hp).
    repeat split; try assumption; try tauto.
    unfold userResultsOf in Hin. apply in_map_iff in Hin.
    destruct Hin as (r & <- & Hr'). apply filter_In in Hr'.
    destruct Hr' as [Hr1 Hr2]. apply sameString_eq in Hr2.
    exists r. auto.
  - destruct H as [Hc H]. split; [exact Hc |].
    rewrite <- userResult_findByKey_userResultsOf. exact H.
Qed.

(** * The rank on scores that may hold NaN *)

Lemma findIndex_from_none {A : Type} (p : A -> bool) (l : list A) (i : Z) :
  Forall (fun e => p e = false) l -> findIndex_from p l i = (-1)%Z.
Proof.
  intro H. revert i. induction H as [| x l Hx _ IH]; intro i; simpl.
  - reflexivity.
  - rewrite Hx. apply IH.
Qed.

Lemma findIndex_from_found {A : Type} (p : A -> bool) (l : list A) (x : A) :
  In x l -> p x = true -> Array_findIndex p l <> (-1)%Z.
Proof.
  intros Hin Hx. apply in_split in Hin. destruct Hin as (L & R & ->).
  unfold Array_findIndex.
  pose proof (findIndex_from_hit p L R x 0 Hx). lia.
Qed.

Lemma Wide_numEq_NaN (a : JsNumber) : Wide.numEq a NaN = false.
Proof. destruct a; reflexivity. Qed.

Lemma Wide_strictEq_NaN (x y : option JsNumber) :
  Wide.isNaN y = true -> Wide.strictEq (Wide.orNull x) (Wide.orNull y) = false.
Proof.
  destruct y as [[| | q |] |]; try discriminate. intros _.
  destruct x as [a |]; simpl; [apply Wide_numEq_NaN | reflexivity].
Qed.

Lemma Wide_strictEq_refl (x : option JsNumber) :
  Wide.isNaN x = false -> Wide.strictEq (Wide.orNull x) (Wide.orNull x) = true.
Proof.
  destruct x as [[| | q |] |]; simpl; try reflexivity; try discriminate.
  intros _. apply Qeq_bool_iff. reflexivity.
Qed.

(** A score with a NaN field is the same as no score, itself included. *)
Lemma Wide_isSameScore_NaN (s u : Wide.NormalizedScore) :
  Wide.hasNaN u = true -> Wide.isSameScore s u = false.
Proof.
  unfold Wide.hasNaN, Wide.isSameScore. intro H.
  repeat (apply orb_true_iff in H; destruct H as [H | H]);
    rewrite (Wide_strictEq_NaN _ _ H);
    repeat rewrite andb_false_r; reflexivity.
Qed.

Lemma Wide_isSameScore_refl (u : Wide.NormalizedScore) :
  Wide.hasNaN u = false -> Wide.isSameScore u u = true.
Proof.
  unfold Wide.hasNaN, Wide.isSameScore. intro H.
  repeat (apply orb_false_iff in H; destruct H as [H ?]).
  rewrite !Wide_strictEq_refl by assumption. reflexivity.
Qed.

Lemma Wide_sort_insert_perm
  (cmp : Wide.NormalizedScore -> Wide.NormalizedScore -> JsNumber)
  (x : Wide.NormalizedScore) (l : list Wide.NormalizedScore) :
  Permutation (x :: l) (Wide.sort_insert cmp x l).
Proof.
  induction l as [| y l IH]; simpl; [apply Permutation_refl |].
  destruct (Wide.isPositive (cmp x y)); [| apply Permutation_refl].
  eapply perm_trans; [apply perm_swap |]. apply perm_skip. exact IH.
Qed.

Lemma Wide_Array_sort_perm
  (cmp : Wide.NormalizedScore -> Wide.NormalizedScore -> JsNumber)
  (l : list Wide.NormalizedScore) :
  Permutation l (Wide.Array_sort cmp l).
Proof.
  induction l as [| x l IH]; simpl; [apply perm_nil |].
  eapply perm_trans; [apply perm_skip; exact IH |]. apply Wide_sort_insert_perm.
Qed.

(** ** The two number models agree on finite scores *)

Lemma widen_toNumber (x : option Q) :
  Wide.toNumber (Wide.orNull (option_map Finite x))
  = Finite (Num.toNumber (Num.orNull x)).
Proof. destruct x; reflexivity. Qed.

Lemma widen_nullish (x : option Q) (m : Q) :
  Wide.nullish (Wide.orNull (option_map Finite x)) (Finite m)
  = Finite (Num.nullish (Num.orNull x) m).
Proof. destruct x; reflexivity. Qed.

Lemma widen_compareScores (d : ScoreType) (a b : NormalizedScore) :
  Wide.compareScores d (widen a) (widen b) = Finite (compareScores d a b).
Proof.
  unfold Wide.compareScores, compareScores, Wide.normalize, normalize, widen.
  cbn [Wide.timeSeconds Wide.reps Wide.loadKg Wide.tiebreakSecs
       timeSeconds reps loadKg tiebreakSecs].
  rewrite !widen_toNumber, !widen_nullish.
  destruct d; cbn [Wide.sub Wide.numEq]; try reflexivity.
  destruct (negb (Qeq_bool (Num.toNumber (Num.orNull (reps b))
                            - Num.toNumber (Num.orNull (reps a))) 0));
    reflexivity.
Qed.

Lemma widen_strictEq (x y : option Q) :
  Wide.strictEq (Wide.orNull (option_map Finite x))
    (Wide.orNull (option_map Finite y))
  = Num.strictEq (Num.orNull x) (Num.orNull y).
Proof. destruct x, y; reflexivity. Qed.

Lemma widen_isSameScore (a b : NormalizedScore) :
  Wide.isSameScore (widen a) (widen b) = isSameScore a b.
Proof.
  unfold Wide.isSameScore, isSameScore, widen. simpl.
  rewrite !widen_strictEq. reflexivity.
Qed.

Lemma widen_sort_insert (d : ScoreType) (x : NormalizedScore)
  (l : list NormalizedScore) :
  Wide.sort_insert (fun a b => Wide.compareScores d a b) (widen x) (map widen l)
  = map widen (sort_insert (fun a b => compareScores d a b) x l).
Proof.
  induction l as [| y l IH]; [reflexivity |].
  cbn [map Wide.sort_insert sort_insert].
  rewrite widen_compareScores. cbn [Wide.isPositive].
  destruct (Num.ltb 0 (compareScores d x y)); cbn [map]; [rewrite IH |];
    reflexivity.
Qed.

Lemma widen_Array_sort (d : ScoreType) (l : list NormalizedScore) :
  Wide.Array_sort (fun a b => Wide.compareScores d a b) (map widen l)
  = map widen (Array_sort (fun a b => compareScores d a b) l).
Proof.
  unfold Wide.Array_sort, Array_sort.
  induction l as [| x l IH]; [reflexivity |].
  cbn [map fold_right]. rewrite IH. apply widen_sort_insert.
Qed.

Lemma findIndex_from_map {A B : Type} (f : A -> B) (p : B -> bool)
  (l : list A) (i : Z) :
  findIndex_from p (map f l) i = findIndex_from (fun x => p (f x)) l i.
Proof.
  revert i. induction l as [| x l IH]; intro i; simpl; [reflexivity |].
  rewrite IH. reflexivity.
Qed.

Lemma findIndex_from_ext {A : Type} (p q : A -> bool) (l : list A) (i : Z) :
  (forall x, p x = q x) -> findIndex_from p l i = findIndex_from q l i.
Proof.
  intro H. revert i. induction l as [| x l IH]; intro i; simpl; [reflexivity |].
  rewrite H, IH. reflexivity.
Qed.

(** On scores of finite numbers, and with the stable sort, the rank of
    [Wide] is the rank of the finite model. *)
Lemma widen_rank (d : ScoreType) (u : NormalizedScore) (b : list NormalizedScore) :
  Wide.computeRankAmongBenchmarkPlusUser Wide.Array_sort d (widen u) (map widen b)
  = computeRankAmongBenchmarkPlusUser d u b.
Proof.
  unfold Wide.computeRankAmongBenchmarkPlusUser, computeRankAmongBenchmarkPlusUser.
  change [widen u] with (map widen [u]). rewrite <- map_app, widen_Array_sort.
  unfold Array_findIndex, Array_length.
  rewrite findIndex_from_map, length_map.
  rewrite (findIndex_from_ext _ (fun s => isSameScore s u))
    by (intro x; apply widen_isSameScore).
  reflexivity.
Qed.

(** C4. Whatever order the engine's [sort] leaves the merged array in, and
    NaN and infinite fields included, [computeRankAmongBenchmarkPlusUser]
    returns an integer in [1, N+1] for a benchmark of length N.  When
    [findIndex] does not locate the user's score ([idx = -1]) it returns
    N+1, the length of the merged sequence; otherwise it returns [idx + 1].
    The user's score fails to be located exactly when one of its fields is
    NaN. *)
Theorem rank_in_range_and_fallback
  (sort : (Wide.NormalizedScore -> Wide.NormalizedScore -> JsNumber) ->
          list Wide.NormalizedScore -> list Wide.NormalizedScore)
  (sort_perm : forall cmp l, Permutation l (sort cmp l))
  (d : ScoreType) (u : Wide.NormalizedScore) (b : list Wide.NormalizedScore) :
  let all := sort (fun x y => Wide.compareScores d x y) (b ++ [u]) in
  let idx := Array_findIndex (fun s => Wide.isSameScore s u) all in
  let rank := Wide.computeRankAmongBenchmarkPlusUser sort d u b in
  (1 <= rank <= Array_length b + 1)%Z /\
  (idx = (-1)%Z -> rank = (Array_length b + 1)%Z) /\
  (idx <> (-1)%Z -> rank = (idx + 1)%Z) /\
  (idx = (-1)%Z <-> Wide.hasNaN u = true).
Proof.
  cbv zeta. unfold Wide.computeRankAmongBenchmarkPlusUser.
  set (all := sort (fun x y => Wide.compareScores d x y) (b ++ [u])).
  assert (Hlen : Array_length all = (Array_length b + 1)%Z).
  { unfold Array_length, all.
    rewrite <- (Permutation_length (sort_perm _ (b ++ [u]))), length_app.
    simpl. lia. }
  assert (Hin : In u all).
  { unfold all. apply (Permutation_in _ (sort_perm _ (b ++ [u]))).
    apply in_or_app. right. left. reflexivity. }
  pose proof (findIndex_from_bounds (fun s => Wide.isSameScore s u) all 0) as B.
  fold (Array_findIndex (fun s => Wide.isSameScore s u) all) in B.
  fold (Array_length all) in B. rewrite Hlen in *.
  set (idx := Array_findIndex (fun s => Wide.isSameScore s u) all) in *.
  assert (HN : idx = (-1)%Z <-> Wide.hasNaN u = true).
  { split.
    - intro E. destruct (Wide.hasNaN u) eqn:Hn; [reflexivity |].
      exfalso.
      exact (findIndex_from_found (fun s => Wide.isSameScore s u) all u Hin
               (Wide_isSameScore_refl u Hn) E).
    - intro Hn. apply findIndex_from_none.
      apply Forall_forall. intros s _. apply Wide_isSameScore_NaN. exact Hn. }
  assert (N0 : (0 <= Array_length b)%Z) by (unfold Array_length; lia).
  clearbody idx. clear Hin Hlen. clearbody all.
  split; [| split; [| split]].
  - destruct (Z.eqb_spec idx (-1)); lia.
  - intro E. rewrite E. reflexivity.
  - intro E. destruct (Z.eqb_spec idx (-1)); [contradiction | reflexivity].
  - exact HN.
Qed.

Lemma rank_in_range_and_fallback_witness :
  Wide.computeRankAmongBenchmarkPlusUser Wide.Array_sort LOAD
    (Wide.mkScore None None (Some NaN) None)
    [Wide.mkScore None None (Some (Finite 100)) None;
     Wide.mkScore None None (Some (Finite 120)) None]
  = (2 + 1)%Z.
Proof.
  apply (proj1 (proj2
           (rank_in_range_and_fallback Wide.Array_sort Wide_Array_sort_perm LOAD
              (Wide.mkScore None None (Some NaN) None)
              [Wide.mkScore None None (Some (Finite 100)) None;
               Wide.mkScore None None (Some (Finite 120)) None]))).
  reflexivity.
Defined.
